(** * otree_redwood.firebase.watch: path patterns, decision decoding, dispatch

    A shallow embedding of [src/otree_redwood/firebase/watch.py].

    - Part 1 models the fragment of Python's [re] that the module uses:
      literal characters and named groups whose body is a greedy dot-star,
      with [re]'s backtracking, anchored-at-start [match].  Patterns a
      client writes in other syntax are left to [re] itself, which the
      model takes as a collaborator.
    - Part 2 models the interpreter state the module touches (the global
      [_watchThread], the [Thread] objects, the Django tables) and a small
      state/exception/trace monad.
    - Part 3 embeds [_handleDecisionEvent], [register_path], [start] and
      [Thread.run].
    - Part 4 states and proves the properties. *)

From Stdlib Require Import ZArith Ascii String.
From stdpp Require Import base option list strings gmap.

Local Open Scope string_scope.
Local Open Scope list_scope.

(** String append computes on a literal prefix. *)
#[local] Arguments String.append !s1 s2 : simpl nomatch.

(* ===================================================================== *)
(** * Part 1: the regular-expression fragment                             *)
(* ===================================================================== *)

(** ** Characters and strings *)

(** ['\n'], the only character that [.] refuses (no [re.DOTALL] is given). *)
Definition newline : ascii := Ascii.ascii_of_nat 10.
Definition slash : ascii := "/"%char.

Definition is_newline (c : ascii) : bool := Ascii.eqb c newline.

(** Number of occurrences of a character in a string. *)
Fixpoint count_char (c : ascii) (s : string) : nat :=
  match s with
  | EmptyString => 0
  | String c' s' => (if Ascii.eqb c' c then 1 else 0) + count_char c s'
  end.

(** [c] does not occur in [s]. *)
Definition free_of (c : ascii) (s : string) : Prop := count_char c s = 0.

(** The text of a string up to (not including) its first newline. *)
Fixpoint first_line (s : string) : string :=
  match s with
  | EmptyString => EmptyString
  | String c s' => if is_newline c then EmptyString else String c (first_line s')
  end.

(** ** Compiled patterns *)

(** One element of a compiled pattern: a literal character, or a named
    group whose body is dot-star (written with [?P<name>] in the source). *)
Inductive item : Type :=
  | Lit (c : ascii)
  | Cap (name : string).

Definition pattern : Type := list item.

(** The literal text [s] as pattern items. *)
Fixpoint lits (s : string) : pattern :=
  match s with
  | EmptyString => []
  | String c s' => Lit c :: lits s'
  end.

(** Group names of a pattern, in group order. *)
Definition cap_names (p : pattern) : list string :=
  omap (fun i => match i with Cap n => Some n | Lit _ => None end) p.

(** A match object: the groups in order, each with its name and the text
    it captured. *)
Definition MatchObj : Type := list (string * string).

(** [match.groupdict()] *)
Definition groupdict (m : MatchObj) : gmap string string := list_to_map m.

(** ** [re.compile] on the fragment *)

(** The characters [re] gives a meaning of their own. *)
Definition is_special (c : ascii) : bool :=
  bool_decide (c ∈ ["."; "^"; "$"; "*"; "+"; "?"; "{"; "}"; "["; "]"; "\"; "|"; "("; ")"]%char).

Definition is_alpha_ (c : ascii) : bool :=
  let n := Ascii.nat_of_ascii c in
  bool_decide (65 ≤ n ≤ 90 ∨ 97 ≤ n ≤ 122 ∨ n = 95)%nat.

Definition is_digit (c : ascii) : bool :=
  let n := Ascii.nat_of_ascii c in bool_decide (48 ≤ n ≤ 57)%nat.

(** A group name must be an identifier. *)
Definition is_identifier (s : string) : bool :=
  match s with
  | EmptyString => false
  | String c s' =>
      is_alpha_ c && forallb (fun c => is_alpha_ c || is_digit c) (list_ascii_of_string s')
  end.

(** Where the scanner stands inside a named group. *)
Inductive scan_state : Type :=
  | Top
  | SawParen
  | SawQuestion
  | SawP
  | InName (acc : string)
  | SawName (name : string)
  | SawDot (name : string)
  | SawStar (name : string).

Definition expect (c want : ascii) (next : option pattern) : option pattern :=
  if Ascii.eqb c want then next else None.

(** One left-to-right pass over the pattern text; [acc] holds the items
    read so far, last first.  [Some p] says the text is written in the
    fragment and [re.compile] gives [p]; [None] says only that the text is
    not in the fragment (other syntax, or a text [re.compile] refuses, such
    as one that repeats a group name), and decides nothing about
    [re.error]. *)
Fixpoint scan (st : scan_state) (acc : pattern) (s : string) : option pattern :=
  match s with
  | EmptyString => match st with Top => Some (rev acc) | _ => None end
  | String c s' =>
      match st with
      | Top =>
          if Ascii.eqb c "(" then scan SawParen acc s'
          else if is_special c then None
          else scan Top (Lit c :: acc) s'
      | SawParen => expect c "?" (scan SawQuestion acc s')
      | SawQuestion => expect c "P" (scan SawP acc s')
      | SawP => expect c "<" (scan (InName "") acc s')
      | InName n =>
          if Ascii.eqb c ">" then
            if is_identifier n && bool_decide (n ∉ cap_names acc)
            then scan (SawName n) acc s' else None
          else scan (InName (n +:+ String c "")) acc s'
      | SawName n => expect c "." (scan (SawDot n) acc s')
      | SawDot n => expect c "*" (scan (SawStar n) acc s')
      | SawStar n => expect c ")" (scan Top (Cap n :: acc) s')
      end
  end.

Definition compile_fragment (src : string) : option pattern := scan Top [] src.

(** ** [regex.match] *)

(** The greedy [.*] followed by the rest of the pattern [k]: take as many
    characters other than newline as possible, and give characters back one
    at a time until the rest matches.  Returns the text taken and the rest's
    groups. *)
Fixpoint dotstar (k : string → option MatchObj) (s : string)
  : option (string * MatchObj) :=
  let stop := (fun m => (EmptyString, m)) <$> k s in
  match s with
  | EmptyString => stop
  | String c s' =>
      if is_newline c then stop
      else match dotstar k s' with
           | Some (v, m) => Some (String c v, m)
           | None => stop
           end
  end.

(** [p.match(s)]: the pattern must match at the start of [s]; text after the
    match is ignored.  [None] is Python's [None]. *)
Fixpoint re_match (p : pattern) (s : string) : option MatchObj :=
  match p with
  | [] => Some []
  | Lit c :: p' =>
      match s with
      | EmptyString => None
      | String c' s' => if Ascii.eqb c c' then re_match p' s' else None
      end
  | Cap n :: p' =>
      (fun '(v, m) => (n, v) :: m) <$> dotstar (re_match p') s
  end.

(** ** The decision pattern *)

Definition _DECISION_RE_source : string :=
  "/session/(?P<session>.*)" +:+
  "/app/(?P<app>.*)" +:+
  "/subsession/(?P<subsession>.*)" +:+
  "/round/(?P<round>.*)" +:+
  "/group/(?P<group>.*)" +:+
  "/component/(?P<component>.*)" +:+
  "/decisions/(?P<participant_code>.*)".

Definition _DECISION_RE : pattern :=
  lits "/session/" ++ [Cap "session"] ++
  lits "/app/" ++ [Cap "app"] ++
  lits "/subsession/" ++ [Cap "subsession"] ++
  lits "/round/" ++ [Cap "round"] ++
  lits "/group/" ++ [Cap "group"] ++
  lits "/component/" ++ [Cap "component"] ++
  lits "/decisions/" ++ [Cap "participant_code"].

(** The path obtained by writing the values [vs], in group order, into the
    groups of [p]: the producers' side of a path template. *)
Fixpoint render (p : pattern) (vs : list string) : string :=
  match p with
  | [] => EmptyString
  | Lit c :: p' => String c (render p' vs)
  | Cap _ :: p' =>
      match vs with
      | v :: vs' => v +:+ render p' vs'
      | [] => render p' []
      end
  end.

(** A decision path with the seven values written in. *)
Definition decision_path (session app subsession round group component participant_code : string)
  : string :=
  "/session/" +:+ session +:+ "/app/" +:+ app +:+ "/subsession/" +:+ subsession +:+
  "/round/" +:+ round +:+ "/group/" +:+ group +:+ "/component/" +:+ component +:+
  "/decisions/" +:+ participant_code.

(** Every group is the last item or is followed by a literal ['/']: the
    shape of a slash-separated template. *)
Fixpoint slash_separated (p : pattern) : bool :=
  match p with
  | [] => true
  | Cap _ :: p' =>
      match p' with
      | [] => true
      | Lit c :: _ => Ascii.eqb c slash && slash_separated p'
      | Cap _ :: _ => false
      end
  | Lit _ :: p' => slash_separated p'
  end.

(** Number of literal ['/'] in a pattern. *)
Fixpoint lit_slashes (p : pattern) : nat :=
  match p with
  | [] => 0
  | Lit c :: p' => (if Ascii.eqb c slash then 1 else 0) + lit_slashes p'
  | Cap _ :: p' => lit_slashes p'
  end.

(** A pattern that ends in a group and has no literal newline. *)
Fixpoint ends_in_group (p : pattern) : bool :=
  match p with
  | [] => false
  | [Cap _] => true
  | Lit c :: p' => negb (is_newline c) && ends_in_group p'
  | Cap _ :: p' => ends_in_group p'
  end.

(** The groups of the decision pattern that are followed by more pattern. *)
Definition intermediate_captures : list string :=
  ["session"; "app"; "subsession"; "round"; "group"; "component"].

(** A value that is exactly one path segment. *)
Definition one_segment (v : string) : Prop := v ≠ "" ∧ free_of slash v.

(* ===================================================================== *)
(** * Part 2: values, interpreter state, and the effect monad             *)
(* ===================================================================== *)

(** ** JSON values, as [json.loads] returns them *)

Local Set Warnings "-register-all".

Inductive json : Type :=
  | JNull
  | JBool (b : bool)
  | JInt (z : Z)
  | JFloat (lexeme : string)
  | JStr (s : string)
  | JArr (xs : list json)
  | JObj (items : list (string * json)).

(** ** Exceptions *)

Inductive exn : Type :=
  | KeyError (key : string)
  | TypeError
  | ValueError
  | NameError (name : string)
  | JSONDecodeError
  | ReError
  | SessionDoesNotExist
  | ParticipantDoesNotExist
  | OtherError (tag : nat).

(** The result of an expression: a value, or a raised exception. *)
Inductive result (A : Type) : Type :=
  | Ok (a : A)
  | Raise (e : exn).
Arguments Ok {A} a.
Arguments Raise {A} e.

Definition result_bind {A B : Type} (r : result A) (k : A → result B) : result B :=
  match r with
  | Ok a => k a
  | Raise e => Raise e
  end.

(** [d[key]] on a dict. *)
Definition getitem {V : Type} (d : gmap string V) (key : string) : result V :=
  match d !! key with
  | Some v => Ok v
  | None => Raise (KeyError key)
  end.

(** The value stored under [key] in a decoded JSON object. *)
Fixpoint assoc (key : string) (items : list (string * json)) : option json :=
  match items with
  | [] => None
  | (k, v) :: items' => if String.eqb k key then Some v else assoc key items'
  end.

(** [v[key]] for a string key on a decoded JSON value: only a dict takes a
    string subscript. *)
Definition subscript (v : json) (key : string) : result json :=
  match v with
  | JObj items =>
      match assoc key items with
      | Some x => Ok x
      | None => Raise (KeyError key)
      end
  | _ => Raise TypeError
  end.

(** [regex.match] demands a string argument. *)
Definition as_str (v : json) : result string :=
  match v with
  | JStr s => Ok s
  | _ => Raise TypeError
  end.

(** ** Handlers and registrations *)

(** A handler function: the module's own [_handleDecisionEvent], or a
    function of a client, known by a number. *)
Inductive handler : Type :=
  | HandleDecision
  | UserHandler (id : nat).

(** A compiled pattern object: one compiled from a text of the fragment,
    or one [re] compiled from a text in other syntax, known by that text. *)
Inductive regex : Type :=
  | Frag (p : pattern)
  | Lib (src : string).

Definition registration : Type := regex * handler.

(** One entry of the local list [matches] in [Thread.run]. *)
Definition matched : Type := handler * MatchObj * json.

(** ** Objects *)

(** A [Thread] instance.  ([self.decisions] is never read and is left out.) *)
Record Thread : Type := mkThread {
  fbURL : string;
  daemon : bool;
  matchers : list registration
}.

(** A [Decision] model instance; a field not assigned yet is [None]. *)
Record Decision : Type := mkDecision {
  d_component : option string;
  d_session : option nat;
  d_subsession : option Z;
  d_round : option Z;
  d_group : option Z;
  d_participant : option nat;
  d_app : option string;
  d_value : option json
}.

(** [Decision()] *)
Definition new_Decision : Decision :=
  mkDecision None None None None None None None None.

Definition set_component (v : string) (d : Decision) : Decision :=
  let '(mkDecision _ s u r g p a x) := d in mkDecision (Some v) s u r g p a x.
Definition set_session (v : nat) (d : Decision) : Decision :=
  let '(mkDecision c _ u r g p a x) := d in mkDecision c (Some v) u r g p a x.
Definition set_subsession (v : Z) (d : Decision) : Decision :=
  let '(mkDecision c s _ r g p a x) := d in mkDecision c s (Some v) r g p a x.
Definition set_round (v : Z) (d : Decision) : Decision :=
  let '(mkDecision c s u _ g p a x) := d in mkDecision c s u (Some v) g p a x.
Definition set_group (v : Z) (d : Decision) : Decision :=
  let '(mkDecision c s u r _ p a x) := d in mkDecision c s u r (Some v) p a x.
Definition set_participant (v : nat) (d : Decision) : Decision :=
  let '(mkDecision c s u r g _ a x) := d in mkDecision c s u r g (Some v) a x.
Definition set_app (v : string) (d : Decision) : Decision :=
  let '(mkDecision c s u r g p _ x) := d in mkDecision c s u r g p (Some v) x.
Definition set_value (v : json) (d : Decision) : Decision :=
  let '(mkDecision c s u r g p a _) := d in mkDecision c s u r g p a (Some v).

(** ** The store *)

(** What the module can reach: the module global [_watchThread] ([None]
    while the name is unbound), the [Thread] objects by identity, and the
    Django tables ([Session] and [Participant] rows by their unique [code],
    each standing as its primary key; the saved [Decision] rows). *)
Record Store : Type := mkStore {
  watchThread : option nat;
  threads : nat → Thread;
  next_thread : nat;
  session_table : gmap string nat;
  participant_table : gmap string nat;
  decision_table : list Decision
}.

Definition set_watchThread (t : option nat) (st : Store) : Store :=
  let '(mkStore _ ths n ss ps ds) := st in mkStore t ths n ss ps ds.

(** Replace the object with identity [t]. *)
Definition set_thread (t : nat) (th : Thread) (st : Store) : Store :=
  let '(mkStore w ths n ss ps ds) := st in
  mkStore w (λ i, if decide (i = t) then th else ths i) n ss ps ds.

Definition set_next_thread (n : nat) (st : Store) : Store :=
  let '(mkStore w ths _ ss ps ds) := st in mkStore w ths n ss ps ds.

Definition add_decision (d : Decision) (st : Store) : Store :=
  let '(mkStore w ths n ss ps ds) := st in mkStore w ths n ss ps (ds ++ [d]).

(** ** What the run leaves behind *)

(** The log records the module writes, and two marks that record a call:
    [Invoked] when a handler is entered, [SaveCalled] when [save] is. *)
Inductive Event : Type :=
  | LogInfo (url : string)
  | LogWarning (path : json) (ms : list registration)
  | LogException (path : json) (e : exn)
  | Invoked (f : handler) (m : MatchObj) (data : json)
  | SaveCalled (d : Decision).

(** ** The monad: state, exceptions, and an append-only trace *)

Record Outcome (A : Type) : Type := mkOutcome {
  out : result A;
  store : Store;
  trace : list Event
}.
Arguments mkOutcome {A} out store trace.
Arguments out {A} o.
Arguments store {A} o.
Arguments trace {A} o.

Definition M (A : Type) : Type := Store → Outcome A.

Definition ret {A : Type} (a : A) : M A := λ st, mkOutcome (Ok a) st [].

Definition raise {A : Type} (e : exn) : M A := λ st, mkOutcome (Raise e) st [].

Definition bind {A B : Type} (c : M A) (k : A → M B) : M B :=
  λ st,
    match c st with
    | mkOutcome (Ok a) st1 t1 =>
        match k a st1 with
        | mkOutcome r st2 t2 => mkOutcome r st2 (t1 ++ t2)
        end
    | mkOutcome (Raise e) st1 t1 => mkOutcome (Raise e) st1 t1
    end.

Definition lift {A : Type} (r : result A) : M A := λ st, mkOutcome r st [].

Definition get : M Store := λ st, mkOutcome (Ok st) st [].

Definition modify (f : Store → Store) : M unit := λ st, mkOutcome (Ok tt) (f st) [].

Definition emit (e : Event) : M unit := λ st, mkOutcome (Ok tt) st [e].

(** [try: c] with the exception, if any, handed to the caller: the store
    and the trace keep what [c] did before it raised. *)
Definition attempt {A : Type} (c : M A) : M (result A) :=
  λ st, match c st with mkOutcome r st1 t1 => mkOutcome (Ok r) st1 t1 end.

Global Instance result_ret : MRet result := @Ok.
Global Instance result_mbind : MBind result := λ A B k r, result_bind r k.
Global Instance M_ret : MRet M := @ret.
Global Instance M_mbind : MBind M := λ A B k c, bind c k.

(** ** Collaborators outside the repository *)

(** [json.loads] and [int] of Python, the client's handler functions, and
    the persistence layer's verdict on a [save]. *)
Class External : Type := {
  (** [json.loads(text)]; [None] when it raises *)
  json_loads : string → option json;
  (** [int(text)]; [None] when it raises [ValueError] *)
  py_int : string → option Z;
  (** handler [id] applied to a match and the data: the exception it
      raises, if any, and the store it leaves *)
  user_handler : nat → MatchObj → json → Store → option exn * Store;
  (** the exception [d.save()] raises in this store, if any *)
  save_error : Store → Decision → option exn
}.

(** Python's [re] on pattern texts outside the fragment. *)
Class RegexLibrary : Type := {
  (** [re.compile(src)]: [None] when it raises [re.error], otherwise the
      [match] method of the compiled pattern, giving the named groups of a
      match in group order or [None] *)
  re_library : string → option (string → option MatchObj)
}.

(* ===================================================================== *)
(** * Part 3: the module's functions                                      *)
(* ===================================================================== *)

Section Watch.

Context {L : RegexLibrary} {E : External}.

(** [re.compile(src)]; [None] when it raises [re.error]. *)
Definition re_compile (src : string) : option regex :=
  match compile_fragment src with
  | Some p => Some (Frag p)
  | None =>
      match re_library src with
      | Some _ => Some (Lib src)
      | None => None
      end
  end.

(** [regex.match(text)] on a compiled pattern object. *)
Definition regex_match (r : regex) (text : string) : option MatchObj :=
  match r with
  | Frag p => re_match p text
  | Lib src =>
      match re_library src with
      | Some matcher => matcher text
      | None => None
      end
  end.

(** [int(text)] *)
Definition int (text : string) : result Z :=
  match py_int text with
  | Some z => Ok z
  | None => Raise ValueError
  end.

(** [Session.objects.get(code=code)] *)
Definition Session_objects_get (code : string) : M nat :=
  st ← get;
  match session_table st !! code with
  | Some s => mret s
  | None => raise SessionDoesNotExist
  end.

(** [Participant.objects.get(code=code)] *)
Definition Participant_objects_get (code : string) : M nat :=
  st ← get;
  match participant_table st !! code with
  | Some p => mret p
  | None => raise ParticipantDoesNotExist
  end.

(** [d.save()]: the call is marked in the trace; the row is stored unless
    the persistence layer raises. *)
Definition save (d : Decision) : M unit :=
  emit (SaveCalled d);;
  st ← get;
  match save_error st d with
  | Some e => raise e
  | None => modify (add_decision d)
  end.

Definition _handleDecisionEvent (m : MatchObj) (data : json) : M unit :=
  let g := groupdict m in
  let d := new_Decision in
  component ← lift (getitem g "component");
  let d := set_component component d in
  (* try: d.session = Session.objects.get(code=g['session'])
     except Session.DoesNotExist: return *)
  r ← attempt (code ← lift (getitem g "session"); Session_objects_get code);
  match r with
  | Raise SessionDoesNotExist => mret tt
  | Raise e => raise e
  | Ok s =>
      let d := set_session s d in
      (* try: d.subsession = int(g['subsession'])
         except ValueError: pass *)
      r ← attempt (lift (text ← getitem g "subsession"; int text));
      d ← match r with
          | Ok z => mret (set_subsession z d)
          | Raise ValueError => mret d
          | Raise e => raise e
          end;
      round ← lift (text ← getitem g "round"; int text);
      let d := set_round round d in
      group ← lift (text ← getitem g "group"; int text);
      let d := set_group group d in
      participant ← (code ← lift (getitem g "participant_code");
                     Participant_objects_get code);
      let d := set_participant participant d in
      app ← lift (getitem g "app");
      let d := set_app app d in
      let d := set_value data d in
      save d
  end.

(** [register_path(path, handlerFunction)]: the global is read first, then
    the pattern is compiled, then the pair is appended to the list held by
    the thread object the global names. *)
Definition register_path (path : string) (handlerFunction : handler) : M unit :=
  st ← get;
  match watchThread st with
  | None => raise (NameError "_watchThread")
  | Some t =>
      match re_compile path with
      | None => raise ReError
      | Some regex =>
          let th := threads st t in
          modify (set_thread t
                    (mkThread (fbURL th) (daemon th)
                              (matchers th ++ [(regex, handlerFunction)])))
      end
  end.

(** [Thread.__init__(self, fbURL)] *)
Definition Thread_init (url : string) : Thread :=
  mkThread url false [(Frag _DECISION_RE, HandleDecision)].

(** [start()]: a fresh thread object is made, bound to the global and
    marked as a daemon.  The thread's [run] is a computation of its own,
    [run] below. *)
Definition start : M unit :=
  st ← get;
  let t := next_thread st in
  let th := Thread_init "https://otree.firebaseio.com/.json" in
  modify (λ st, set_watchThread (Some t)
                  (set_thread t (mkThread (fbURL th) true (matchers th))
                     (set_next_thread (S t) st))).

(** A server-sent event. *)
Record Message : Type := mkMessage {
  event : string;
  data : string
}.

(** The first loop of [run]'s body: every matcher is tried in list order
    and the hits are appended to [matches]. *)
Fixpoint collect (ms : list registration) (message_payload : json) (matches : list matched)
  : result (list matched) :=
  match ms with
  | [] => Ok matches
  | (regex, handlerFunc) :: ms' =>
      path ← subscript message_payload "path";
      text ← as_str path;
      match regex_match regex text with
      | Some m =>
          d ← subscript message_payload "data";
          collect ms' message_payload (matches ++ [(handlerFunc, m, d)])
      | None => collect ms' message_payload matches
      end
  end.

(** What the function value [f] does when applied to [(match, data)]. *)
Definition apply_handler (f : handler) (m : MatchObj) (d : json) : M unit :=
  match f with
  | HandleDecision => _handleDecisionEvent m d
  | UserHandler id =>
      λ st, let '(e, st') := user_handler id m d st in
            mkOutcome (match e with Some e => Raise e | None => Ok tt end) st' []
  end.

(** The call [f(match, data)] in [run], marked in the trace. *)
Definition invoke (f : handler) (m : MatchObj) (d : json) : M unit :=
  emit (Invoked f m d);; apply_handler f m d.

(** The second loop: every hit is called inside [try], and a bare
    [except] logs whatever it raised. *)
Fixpoint invoke_all (message_payload : json) (matches : list matched) : M unit :=
  match matches with
  | [] => mret tt
  | (f, m, d) :: rest =>
      r ← attempt (invoke f m d);
      match r with
      | Ok _ => mret tt
      | Raise e =>
          path ← lift (subscript message_payload "path");
          emit (LogException path e)
      end;;
      invoke_all message_payload rest
  end.

(** The body of [run]'s loop for one message of kind [put]. *)
Definition handle_put (self : nat) (text : string) : M unit :=
  message_payload ← match json_loads text with
                    | Some v => mret v
                    | None => raise JSONDecodeError
                    end;
  st ← get;
  matches ← lift (collect (matchers (threads st self)) message_payload []);
  (if decide (length matches = 0) then
     path ← lift (subscript message_payload "path");
     emit (LogWarning path (matchers (threads st self)))
   else mret tt);;
  invoke_all message_payload matches.

Definition handle_message (self : nat) (msg : Message) : M unit :=
  if decide (event msg = "put") then handle_put self (data msg) else mret tt.

(** [for msg in messages: ...] over the messages the stream delivers. *)
Fixpoint run_loop (self : nat) (messages : list Message) : M unit :=
  match messages with
  | [] => mret tt
  | msg :: rest => handle_message self msg;; run_loop self rest
  end.

(** [Thread.run(self)] *)
Definition run (self : nat) (messages : list Message) : M unit :=
  st ← get;
  emit (LogInfo (fbURL (threads st self)));;
  run_loop self messages.

End Watch.

(** ** Reading a trace *)

(** The handler calls made, in order. *)
Definition calls (tr : list Event) : list matched :=
  omap (λ e, match e with Invoked f m d => Some (f, m, d) | _ => None end) tr.

(** The records handed to [save], in order. *)
Definition save_calls (tr : list Event) : list Decision :=
  omap (λ e, match e with SaveCalled d => Some d | _ => None end) tr.

(** ** The registry's [matchAll], in the words of its contract *)

(** Every registration whose pattern matches [path], in registration
    order, each with its captures and the event's data. *)
Definition matchAll `{RegexLibrary} (registry : list registration) (path : string)
    (data : json) : list matched :=
  omap (λ '(regex, f), (λ m, (f, m, data)) <$> regex_match regex path) registry.

(** ** Dispatch, in the words of its contract *)

(** Each hit's handler is applied in turn, in the store the one before it
    left; what a handler raises becomes one exception record carrying the
    event's path, and the next handler is applied all the same. *)
Fixpoint handlers_in_turn `{External} (path : json) (hits : list matched) (st : Store)
  : Outcome unit :=
  match hits with
  | [] => mkOutcome (Ok tt) st []
  | (f, m, d) :: rest =>
      let o := apply_handler f m d st in
      let o' := handlers_in_turn path rest (store o) in
      mkOutcome (Ok tt) (store o')
        (Invoked f m d :: trace o
         ++ match out o with
            | Ok _ => []
            | Raise e => [LogException path e]
            end
         ++ trace o')
  end.

(** ** Decision decoding, in the words of its contract *)

(** The record the decoder builds from the seven captures and the payload:
    no record and no error when the session is unknown; [round] and
    [group] must parse; the participant must exist; [subsession] is left
    unset when it does not parse. *)
Definition decode `{External} (st : Store)
    (session app subsession round group component participant_code : string)
    (data : json) : result (option Decision) :=
  match session_table st !! session with
  | None => Ok None
  | Some sid =>
      match py_int round, py_int group with
      | Some rz, Some gz =>
          match participant_table st !! participant_code with
          | Some pid =>
              Ok (Some (mkDecision (Some component) (Some sid) (py_int subsession)
                                   (Some rz) (Some gz) (Some pid) (Some app) (Some data)))
          | None => Raise ParticipantDoesNotExist
          end
      | _, _ => Raise ValueError
      end
  end.

(** The captures of a decision path as a match object. *)
Definition decision_match
    (session app subsession round group component participant_code : string) : MatchObj :=
  [("session", session); ("app", app); ("subsession", subsession); ("round", round);
   ("group", group); ("component", component); ("participant_code", participant_code)].

(** An envelope the loop body can decode: a [put] message whose text is a
    JSON object with a string under [path] and something under [data].
    Messages of another kind are skipped unread. *)
Definition well_formed_envelope `{External} (msg : Message) : Prop :=
  event msg = "put" →
  ∃ payload p d,
    json_loads (data msg) = Some payload
    ∧ subscript payload "path" = Ok (JStr p)
    ∧ subscript payload "data" = Ok d.

(** One computation after another, as the loop chains them. *)
Definition then_run {A B : Type} (o : Outcome A) (c : M B) : Outcome B :=
  match c (store o) with
  | mkOutcome r st2 t2 => mkOutcome r st2 (trace o ++ t2)
  end.

(** ** Sample collaborators and stores *)

(** The interpreter right after the module is imported: [_watchThread] is
    unbound, no thread object exists, the tables are empty. *)
Definition initial_store : Store :=
  mkStore None (λ _, mkThread "" false []) 0 ∅ ∅ [].

(** A deployment with session [S1] and participant [P1], watcher started. *)
Definition sample_store : Store :=
  mkStore (Some 0)
          (λ i, if decide (i = 0)
                then mkThread "https://otree.firebaseio.com/.json" true
                              [(Frag _DECISION_RE, HandleDecision)]
                else mkThread "" false [])
          1 {[ "S1" := 1 ]} {[ "P1" := 7 ]} [].

Definition digit_value (c : ascii) : option Z :=
  if is_digit c then Some (Z.of_nat (Ascii.nat_of_ascii c) - 48)%Z else None.

Fixpoint decimal (acc : Z) (s : string) : option Z :=
  match s with
  | EmptyString => Some acc
  | String c s' =>
      match digit_value c with
      | Some v => decimal (10 * acc + v) s'
      | None => None
      end
  end.

(** [int] on plain decimal numerals, enough for the sample paths. *)
Definition sample_int (s : string) : option Z :=
  match s with
  | EmptyString => None
  | String c s' =>
      if Ascii.eqb c "-" then
        match s' with
        | EmptyString => None
        | _ => Z.opp <$> decimal 0 s'
        end
      else decimal 0 s
  end.

Definition sample_path : string :=
  "/session/S1/app/econ/subsession/1/round/2/group/3/component/chat/decisions/P1".

(** A second template over the same paths, for clients of the registry. *)
Definition sample_template : string := "/session/(?P<session>.*)".

Definition sample_regex : pattern := lits "/session/" ++ [Cap "session"].

(** Envelopes as decoded values: a well-formed [put] payload, one without
    [path], and one on a path nothing is registered for. *)
Definition sample_payload : json := JObj [("path", JStr sample_path); ("data", JInt 5)].
Definition payload_without_path : json := JObj [("data", JInt 5)].
Definition payload_elsewhere : json := JObj [("path", JStr "/logs/x"); ("data", JNull)].

(** The JSON text of an envelope: an object with the given members. *)
Definition dquote : string := String (Ascii.ascii_of_nat 34) "".
Definition quoted (s : string) : string := dquote +:+ s +:+ dquote.

Definition sample_text : string :=
  "{" +:+ quoted "path" +:+ ": " +:+ quoted sample_path +:+ ", " +:+
  quoted "data" +:+ ": 5}".
Definition text_without_path : string := "{" +:+ quoted "data" +:+ ": 5}".
Definition text_elsewhere : string :=
  "{" +:+ quoted "path" +:+ ": " +:+ quoted "/logs/x" +:+ ", " +:+
  quoted "data" +:+ ": null}".
(** Not a JSON document. *)
Definition broken_text : string := "{".

(** [json.loads] on the message texts the examples use: the three
    documents above decode to their values; [broken_text], like every text
    outside this table, is taken to raise. *)
Definition sample_loads (text : string) : option json :=
  if decide (text = sample_text) then Some sample_payload
  else if decide (text = text_without_path) then Some payload_without_path
  else if decide (text = text_elsewhere) then Some payload_elsewhere
  else None.

(** A pattern text in other syntax: one path segment after [/logs/]. *)
Definition logs_template : string := "/logs/(?P<id>[^/]+)".

(** The text up to the first ['/']. *)
Fixpoint take_segment (s : string) : string :=
  match s with
  | EmptyString => EmptyString
  | String c s' => if Ascii.eqb c slash then EmptyString else String c (take_segment s')
  end.

(** [s] without the leading [p], when it starts with [p]. *)
Fixpoint strip_prefix (p s : string) : option string :=
  match p with
  | EmptyString => Some s
  | String c p' =>
      match s with
      | EmptyString => None
      | String c' s' => if Ascii.eqb c c' then strip_prefix p' s' else None
      end
  end.

(** What [logs_template] matches. *)
Definition match_logs (text : string) : option MatchObj :=
  match strip_prefix "/logs/" text with
  | Some rest =>
      match take_segment rest with
      | EmptyString => None
      | v => Some [("id", v)]
      end
  | None => None
  end.

(** [re] on the one text outside the fragment that the samples use; every
    other such text is taken to be refused. *)
Definition sample_library : RegexLibrary :=
  Build_RegexLibrary (λ src, if decide (src = logs_template) then Some match_logs else None).

(** Client handlers: number 0 raises, number 1 returns, number 2 registers
    handler 1 on [sample_template] while it runs and returns. *)
Definition sample_handler (id : nat) (m : MatchObj) (d : json) (st : Store)
  : option exn * Store :=
  match id with
  | 0 => (Some (OtherError 0), st)
  | 1 => (None, st)
  | _ => (None, store (register_path (L := sample_library) sample_template
                         (UserHandler 1) st))
  end.

Definition sample_external : External :=
  Build_External sample_loads sample_int sample_handler (λ _ _, None).

(** The sample store with handlers 0 and 1 registered after the built-in. *)
Definition busy_store : Store :=
  set_thread 0
    (mkThread "https://otree.firebaseio.com/.json" true
       [(Frag _DECISION_RE, HandleDecision); (Frag sample_regex, UserHandler 0);
        (Frag sample_regex, UserHandler 1)])
    sample_store.

(** The sample store with the registering handler 2 after the built-in. *)
Definition growing_store : Store :=
  set_thread 0
    (mkThread "https://otree.firebaseio.com/.json" true
       [(Frag _DECISION_RE, HandleDecision); (Frag sample_regex, UserHandler 2)])
    sample_store.

Definition sample_match : MatchObj := decision_match "S1" "econ" "1" "2" "3" "chat" "P1".

(** What [sample_regex] captures on [sample_path]: the rest of the line. *)
Definition sample_session_match : MatchObj :=
  [("session", "S1/app/econ/subsession/1/round/2/group/3/component/chat/decisions/P1")].

(** Three well-formed [put] messages and one of another kind. *)
Definition sample_stream : list Message :=
  [mkMessage "put" sample_text; mkMessage "keep-alive" "null";
   mkMessage "put" text_elsewhere; mkMessage "put" sample_text].

(** ** Further vocabulary for patterns and registration *)

(** No literal of the pattern is a newline. *)
Fixpoint no_newline_literal (p : pattern) : bool :=
  match p with
  | [] => true
  | Lit c :: p' => negb (is_newline c) && no_newline_literal p'
  | Cap _ :: p' => no_newline_literal p'
  end.

(** A pattern text without any character [re] treats specially. *)
Fixpoint plain (s : string) : bool :=
  match s with
  | EmptyString => true
  | String c s' => negb (is_special c) && plain s'
  end.

(** A client that calls [register_path] for each pair in turn; the first
    call that raises ends the sequence. *)
Fixpoint register_each `{RegexLibrary} (rs : list (string * handler)) : M unit :=
  match rs with
  | [] => mret tt
  | (path, handlerFunction) :: rs' =>
      register_path path handlerFunction;; register_each rs'
  end.

(** The registrations a list of calls adds when every pattern compiles. *)
Definition compiled `{RegexLibrary} (rs : list (string * handler)) : list registration :=
  omap (λ '(path, f), (λ regex, (regex, f)) <$> re_compile path) rs.

(** The registry [Thread.__init__] sets up. *)
Definition builtin_matchers : list registration := [(Frag _DECISION_RE, HandleDecision)].

(** What the scanner owes while it stands inside a group: the name it has
    read is not among the groups compiled so far. *)
Definition pending_ok (st : scan_state) (acc : pattern) : Prop :=
  match st with
  | SawName n | SawDot n | SawStar n => n ∉ cap_names acc
  | _ => True
  end.

(** A computation that only reads: it leaves the store as it found it and
    writes nothing to the trace. *)
Definition quiet {A : Type} (c : M A) : Prop :=
  ∀ st, ∃ r, c st = mkOutcome r st [].

(** What the decision handler may do to a store: nothing, or append one
    decision, the one it handed to [save], and return normally. *)
Definition saved_at_most_one (st : Store) (o : Outcome unit) : Prop :=
  store o = st
  ∨ ∃ d, store o = add_decision d st ∧ out o = Ok tt ∧ trace o = [SaveCalled d].

(** Sample collaborators whose persistence layer refuses every record. *)
Definition refusing_external : External :=
  Build_External sample_loads sample_int sample_handler (λ _ _, Some (OtherError 1)).

(** The JSON text of a decision event whose [round] is not a number. *)
Definition sample_path_bad_round : string :=
  "/session/S1/app/econ/subsession/1/round/abc/group/3/component/chat/decisions/P1".
Definition sample_payload_bad_round : json :=
  JObj [("path", JStr sample_path_bad_round); ("data", JInt 5)].

(** A started watcher whose deployment knows no session and no participant. *)
Definition bare_store : Store :=
  mkStore (Some 0) (threads sample_store) 1 ∅ ∅ [].

Definition text_bad_round : string :=
  "{" +:+ quoted "path" +:+ ": " +:+ quoted sample_path_bad_round +:+ ", " +:+
  quoted "data" +:+ ": 5}".

(** A decision event that carries no [data]. *)
Definition payload_without_data : json := JObj [("path", JStr sample_path)].
Definition text_without_data : string :=
  "{" +:+ quoted "path" +:+ ": " +:+ quoted sample_path +:+ "}".

(** [sample_loads] with two more documents. *)
Definition sample_loads_more (text : string) : option json :=
  if decide (text = text_bad_round) then Some sample_payload_bad_round
  else if decide (text = text_without_data) then Some payload_without_data
  else sample_loads text.

Definition sample_external_more : External :=
  Build_External sample_loads_more sample_int sample_handler (λ _ _, None).

(** The sample store with the raising handler 0 registered ahead of the
    built-in decision handler. *)
Definition raising_first_store : Store :=
  set_thread 0
    (mkThread "https://otree.firebaseio.com/.json" true
       [(Frag sample_regex, UserHandler 0); (Frag _DECISION_RE, HandleDecision)])
    sample_store.


(* ===================================================================== *)
(** * Part 4: properties                                                  *)
(* ===================================================================== *)

(** ** Strings *)

Lemma append_assoc (a b c : string) : (a +:+ b) +:+ c = a +:+ (b +:+ c).
Proof. induction a as [|x a IH]; simpl; [reflexivity | by rewrite IH]. Qed.

Lemma append_empty_r (a : string) : a +:+ "" = a.
Proof. induction a as [|x a IH]; simpl; [reflexivity | by rewrite IH]. Qed.

Lemma count_char_app (c : ascii) (a b : string) :
  count_char c (a +:+ b) = count_char c a + count_char c b.
Proof. induction a as [|x a IH]; simpl; [reflexivity | rewrite IH; lia]. Qed.

Lemma free_of_cons (c x : ascii) (s : string) :
  free_of c (String x s) ↔ Ascii.eqb x c = false ∧ free_of c s.
Proof.
  unfold free_of; simpl. destruct (Ascii.eqb x c); split.
  - intros [=].
  - intros [[=] _].
  - intros Hs. by split.
  - intros [_ Hs]. exact Hs.
Qed.

Lemma free_of_app (c : ascii) (a b : string) :
  free_of c (a +:+ b) ↔ free_of c a ∧ free_of c b.
Proof. unfold free_of. rewrite count_char_app. lia. Qed.

Lemma first_line_free (s : string) : free_of newline (first_line s).
Proof.
  induction s as [|x s IH]; simpl; [reflexivity |].
  unfold is_newline. destruct (Ascii.eqb x newline) eqn:E; [reflexivity |].
  by apply free_of_cons.
Qed.

Lemma first_line_app (v t : string) :
  free_of newline v → first_line (v +:+ t) = v +:+ first_line t.
Proof.
  induction v as [|x v IH]; simpl; [reflexivity |].
  intros [E Hv]%free_of_cons. unfold is_newline. rewrite E. by rewrite IH.
Qed.

(** ** The greedy group *)

(** What [dotstar] returns is a split of the input: the text taken has no
    newline and the rest of the pattern matched what is left. *)
Lemma dotstar_sound k s v m :
  dotstar k s = Some (v, m) →
  ∃ t, s = v +:+ t ∧ free_of newline v ∧ k t = Some m.
Proof.
  revert v m. induction s as [|c s IH]; intros v m; simpl.
  - destruct (k "") eqn:E; simpl; intros [= <- <-]. by exists "".
  - assert (Hstop : (λ m0, ("", m0)) <$> k (String c s) = Some (v, m) →
                    ∃ t, String c s = v +:+ t ∧ free_of newline v ∧ k t = Some m).
    { destruct (k (String c s)) eqn:E; simpl; intros [= <- <-]. by exists (String c s). }
    destruct (is_newline c) eqn:Hc; [exact Hstop |].
    destruct (dotstar k s) as [[v' m']|] eqn:E; [| exact Hstop].
    intros [= <- <-]. destruct (IH _ _ eq_refl) as (t & -> & Hv & Hk).
    exists t. split; [reflexivity |]. split; [| exact Hk].
    by apply free_of_cons.
Qed.

(** If the rest of the pattern matches no suffix of [s], the group fails. *)
Lemma dotstar_none k s :
  (∀ a t, s = a +:+ t → k t = None) → dotstar k s = None.
Proof.
  induction s as [|c s IH]; intros Hk; simpl.
  - by rewrite (Hk "" "" eq_refl).
  - rewrite (Hk "" (String c s) eq_refl). simpl.
    rewrite IH; [by destruct (is_newline c) |].
    intros a t ->. by apply (Hk (String c a) t).
Qed.

(** If the rest matches [t] but no proper suffix of [t], the group takes
    nothing of [t]. *)
Lemma dotstar_stop k t m :
  k t = Some m →
  (∀ a t', a ≠ "" → t = a +:+ t' → k t' = None) →
  dotstar k t = Some ("", m).
Proof.
  intros Hk Hlater. destruct t as [|c t]; simpl; rewrite Hk; simpl; [reflexivity |].
  rewrite dotstar_none; [by destruct (is_newline c) |].
  intros a t' ->. by apply (Hlater (String c a) t').
Qed.

(** Text without a newline in front of such a [t] is taken whole. *)
Lemma dotstar_take k v t m :
  free_of newline v →
  dotstar k t = Some ("", m) →
  dotstar k (v +:+ t) = Some (v, m).
Proof.
  intros Hv Ht. induction v as [|c v IH]; simpl; [exact Ht |].
  apply free_of_cons in Hv as [Hc Hv]. unfold is_newline. rewrite Hc.
  by rewrite (IH Hv).
Qed.

(** With nothing after it, the group takes the rest of the line. *)
Lemma dotstar_last k m s :
  (∀ t, k t = Some m) → dotstar k s = Some (first_line s, m).
Proof.
  intros Hk. induction s as [|c s IH]; simpl; rewrite Hk; [reflexivity |].
  destruct (is_newline c); [reflexivity |]. by rewrite IH.
Qed.

(** ** [re_match] *)

(** The groups of a match are the groups of the pattern, in order. *)
Lemma re_match_names p s m : re_match p s = Some m → m.*1 = cap_names p.
Proof.
  revert s m. induction p as [|[c|n] p IH]; intros s m; simpl.
  - by intros [= <-].
  - destruct s as [|c' s]; [done |]. destruct (Ascii.eqb c c'); [apply IH | done].
  - destruct (dotstar (re_match p) s) as [[v m']|] eqn:E; simpl; [| done].
    intros [= <-]. apply dotstar_sound in E as (t & _ & _ & Hk).
    simpl. f_equal. by eapply IH.
Qed.

(** A match reads the pattern off the start of the text: the text begins
    with the pattern rendered with the captured values, and no captured
    value holds a newline. *)
Lemma re_match_sound p s m :
  re_match p s = Some m →
  Forall (free_of newline) m.*2 ∧ ∃ rest, s = render p m.*2 +:+ rest.
Proof.
  revert s m. induction p as [|[c|n] p IH]; intros s m; simpl.
  - intros [= <-]. split; [constructor | by exists s].
  - destruct s as [|c' s]; [done |].
    destruct (Ascii.eqb c c') eqn:E; [| done]. apply Ascii.eqb_eq in E as <-.
    intros [Hm [rest ->]]%IH. split; [exact Hm | by exists rest].
  - destruct (dotstar (re_match p) s) as [[v m']|] eqn:E; simpl; [| done].
    intros [= <-]. apply dotstar_sound in E as (t & -> & Hv & Hk).
    apply IH in Hk as [Hm [rest ->]]. split; [by constructor |].
    exists rest. simpl. by rewrite append_assoc.
Qed.

(** For such a pattern the match covers exactly the first line of the
    text: the trailing group takes the remainder of the line. *)
Lemma re_match_first_line p s m :
  ends_in_group p = true →
  re_match p s = Some m →
  first_line s = render p m.*2.
Proof.
  revert s m. induction p as [|[c|n] p IH]; intros s m; simpl; [done | |].
  - intros [Hc Hp]%andb_prop. destruct s as [|c' s]; [done |].
    destruct (Ascii.eqb c c') eqn:E; [| done]. apply Ascii.eqb_eq in E as <-.
    intros Hm. simpl. apply negb_true_iff in Hc. rewrite Hc. f_equal. by apply IH.
  - intros Hp. destruct (dotstar (re_match p) s) as [[v m']|] eqn:E; simpl; [| done].
    intros [= <-]. simpl. destruct p as [|i p'].
    + rewrite (dotstar_last _ []) in E by done. injection E as <- <-. simpl.
      by rewrite append_empty_r.
    + apply dotstar_sound in E as (t & -> & Hv & Hk).
      rewrite first_line_app by done. f_equal. by apply IH.
Qed.

(** ** Counting separators *)

Lemma lit_slashes_le_render p vs :
  (lit_slashes p ≤ count_char slash (render p vs))%nat.
Proof.
  revert vs. induction p as [|[c|n] p IH]; intros vs; simpl; [lia | |].
  - specialize (IH vs). destruct (Ascii.eqb c slash); lia.
  - destruct vs as [|v vs]; [apply IH |].
    rewrite count_char_app. specialize (IH vs). lia.
Qed.

Lemma count_render p vs :
  length vs = length (cap_names p) →
  count_char slash (render p vs)
  = lit_slashes p + sum_list (count_char slash <$> vs).
Proof.
  revert vs. induction p as [|[c|n] p IH]; intros vs; simpl.
  - by destruct vs.
  - intros Hl. rewrite IH by done. lia.
  - destruct vs as [|v vs]; [done |]. simpl. intros [= Hl].
    rewrite count_char_app, IH by done. unfold fmap. lia.
Qed.

(** A text on which the pattern matches has at least the pattern's
    literal separators. *)
Lemma re_match_slashes p s m :
  re_match p s = Some m → (lit_slashes p ≤ count_char slash s)%nat.
Proof.
  intros [_ [rest ->]]%re_match_sound. rewrite count_char_app.
  pose proof (lit_slashes_le_render p m.*2). lia.
Qed.

(** ** Round trip of a slash-separated template *)

(** Values without ['/'] and without newline, written into a
    slash-separated template, are read back as they were written. *)
Lemma re_match_render p vs :
  slash_separated p = true →
  length vs = length (cap_names p) →
  Forall (free_of slash) vs →
  Forall (free_of newline) vs →
  re_match p (render p vs) = Some (zip (cap_names p) vs).
Proof.
  revert vs. induction p as [|[c|n] p IH]; intros vs Hp Hl Hs Hn.
  - by destruct vs.
  - simpl. rewrite Ascii.eqb_refl. by apply IH.
  - destruct vs as [|v vs]; [done |]. injection Hl as Hl.
    apply Forall_cons in Hs as [Hv Hs]. apply Forall_cons in Hn as [Hvn Hn].
    assert (Hp' : slash_separated p = true).
    { simpl in Hp. destruct p as [|[c|?] ?]; [done | | done].
      by apply andb_prop in Hp as [_ ?]. }
    cbn [re_match render cap_names omap zip zip_with].
    rewrite (dotstar_take _ v (render p vs) (zip (cap_names p) vs)); [done | done |].
    apply dotstar_stop; [by apply IH |].
    intros a t' Ha Ht.
    destruct (re_match p t') as [m|] eqn:Hm; [exfalso | reflexivity].
    apply re_match_slashes in Hm.
    destruct p as [|[c|?] p']; simpl in Hp; [| | done].
    + simpl in Ht. by destruct a.
    + apply andb_prop in Hp as [Hc _]. apply Ascii.eqb_eq in Hc as ->.
      destruct a as [|x a]; [done |]. simpl in Ht. injection Ht as <- Ht.
      assert (Hcount : count_char slash (render p' vs) = lit_slashes p').
      { rewrite count_render by done.
        assert (sum_list (count_char slash <$> vs) = 0) as ->; [| lia].
        clear -Hs. induction Hs as [|v vs Hv _ IH]; simpl; [done |].
        unfold free_of in Hv. unfold fmap in IH. lia. }
      rewrite Ht, count_char_app in Hcount. simpl in Hm. lia.
Qed.

(** ** The decision pattern *)

Lemma _DECISION_RE_compiled : compile_fragment _DECISION_RE_source = Some _DECISION_RE.
Proof. vm_compute. reflexivity. Qed.

(** A text that repeats a group name, an unfinished group and a text in
    other syntax are outside the fragment; the sample template is in it. *)
Example compile_fragment_examples :
  compile_fragment "/a/(?P<x>.*)/b/(?P<x>.*)" = None
  ∧ compile_fragment "/a/(?P<x>.*" = None
  ∧ compile_fragment logs_template = None
  ∧ compile_fragment sample_template = Some sample_regex.
Proof. repeat split; by vm_compute. Qed.

(** [re.compile] on the decision pattern's text gives [_DECISION_RE],
    whatever [re] does outside the fragment. *)
Lemma _DECISION_RE_re_compiled `{RegexLibrary} :
  re_compile _DECISION_RE_source = Some (Frag _DECISION_RE).
Proof. unfold re_compile. by rewrite _DECISION_RE_compiled. Qed.

Example decision_match_example :
  re_match _DECISION_RE
    "/session/S1/app/econ/subsession/1/round/2/group/3/component/chat/decisions/P1"
  = Some [("session", "S1"); ("app", "econ"); ("subsession", "1"); ("round", "2");
          ("group", "3"); ("component", "chat"); ("participant_code", "P1")].
Proof. vm_compute. reflexivity. Qed.

Lemma render_decision s a u r g c p :
  render _DECISION_RE [s; a; u; r; g; c; p] = decision_path s a u r g c p.
Proof.
  unfold decision_path. rewrite <- (append_empty_r p) at 2. reflexivity.
Qed.

(** A match of the decision pattern has the seven groups, in order. *)
Lemma decision_match_groups path m :
  re_match _DECISION_RE path = Some m →
  ∃ s a u r g c p,
    m = [("session", s); ("app", a); ("subsession", u); ("round", r);
         ("group", g); ("component", c); ("participant_code", p)].
Proof.
  intros Hm%re_match_names.
  change (cap_names _DECISION_RE)
    with ["session"; "app"; "subsession"; "round"; "group"; "component";
          "participant_code"] in Hm.
  repeat (destruct m as [|[? ?] m]; [discriminate Hm |]).
  destruct m; [| discriminate Hm].
  simpl in Hm. injection Hm as -> -> -> -> -> -> ->. by eexists _, _, _, _, _, _, _.
Qed.

(** C1, as amended.  Whenever the decision pattern matches a path, the match
    has the seven groups in order; no captured value holds a newline; the
    first line of the path is the template with the captured values written
    in, so the trailing group takes the remainder of the line; and that line
    holds the template's fourteen separators plus those inside the captured
    values.  A captured value may be empty, and an intermediate one holds a
    ['/'] whenever the line has more than fourteen of them. *)
Theorem decision_captures_shape path m :
  re_match _DECISION_RE path = Some m →
  ∃ s a u r g c p,
    m = [("session", s); ("app", a); ("subsession", u); ("round", r);
         ("group", g); ("component", c); ("participant_code", p)]
    ∧ Forall (free_of newline) [s; a; u; r; g; c; p]
    ∧ first_line path = decision_path s a u r g c p
    ∧ count_char slash (first_line path)
      = 14 + sum_list (count_char slash <$> [s; a; u; r; g; c; p]).
Proof.
  intros Hm.
  destruct (decision_match_groups _ _ Hm) as (s & a & u & r & g & c & p & ->).
  exists s, a, u, r, g, c, p. split; [reflexivity |].
  pose proof (re_match_sound _ _ _ Hm) as [Hfree _].
  pose proof (re_match_first_line _DECISION_RE _ _ eq_refl Hm) as Hline.
  simpl fmap in Hline. rewrite render_decision in Hline.
  split; [exact Hfree |]. split; [exact Hline |].
  rewrite Hline, <- render_decision. by rewrite count_render.
Qed.

Lemma decision_captures_shape_witness :
  ∃ s a u r g c p,
    [("session", "S1"); ("app", "econ"); ("subsession", "1"); ("round", "2");
     ("group", "3"); ("component", "chat"); ("participant_code", "P1")]
    = [("session", s); ("app", a); ("subsession", u); ("round", r);
       ("group", g); ("component", c); ("participant_code", p)]
    ∧ Forall (free_of newline) [s; a; u; r; g; c; p]
    ∧ first_line "/session/S1/app/econ/subsession/1/round/2/group/3/component/chat/decisions/P1"
      = decision_path s a u r g c p
    ∧ count_char slash
        (first_line "/session/S1/app/econ/subsession/1/round/2/group/3/component/chat/decisions/P1")
      = 14 + sum_list (count_char slash <$> [s; a; u; r; g; c; p]).
Proof.
  apply (decision_captures_shape
           "/session/S1/app/econ/subsession/1/round/2/group/3/component/chat/decisions/P1").
  vm_compute. reflexivity.
Defined.

(** C1, as stated, fails: the intermediate group [session] captures a value
    with a ['/'] on one path and the empty value on another. *)
Lemma intermediate_capture_not_one_segment :
  (∃ m, re_match _DECISION_RE
          "/session/x/y/app/econ/subsession/1/round/2/group/3/component/chat/decisions/P1"
        = Some m
        ∧ "session" ∈ intermediate_captures
        ∧ groupdict m !! "session" = Some "x/y"
        ∧ ¬ one_segment "x/y")
  ∧ (∃ m, re_match _DECISION_RE
            "/session//app/econ/subsession/1/round/2/group/3/component/chat/decisions/P1"
          = Some m
          ∧ groupdict m !! "session" = Some ""
          ∧ ¬ one_segment "").
Proof.
  split.
  - eexists. split; [vm_compute; reflexivity |].
    split; [by constructor |].
    split; [by vm_compute |].
    intros [_ Hfree]. discriminate Hfree.
  - eexists. split; [vm_compute; reflexivity |].
    split; [by vm_compute |].
    by intros [Hne _].
Qed.

(** C2, as amended.  Values that hold neither ['/'] nor a newline, written
    into the decision template, make a path on which the decision pattern
    matches, and the match returns exactly those values under their group
    names.  (The values need not be non-empty.) *)
Theorem decision_round_trip s a u r g c p :
  Forall (free_of slash) [s; a; u; r; g; c; p] →
  Forall (free_of newline) [s; a; u; r; g; c; p] →
  let m := [("session", s); ("app", a); ("subsession", u); ("round", r);
            ("group", g); ("component", c); ("participant_code", p)] in
  re_match _DECISION_RE (decision_path s a u r g c p) = Some m
  ∧ groupdict m
    = <["session" := s]> (<["app" := a]> (<["subsession" := u]> (<["round" := r]>
        (<["group" := g]> (<["component" := c]> (<["participant_code" := p]> ∅)))))).
Proof.
  intros Hs Hn m. split; [| reflexivity].
  rewrite <- render_decision. by apply re_match_render.
Qed.

Lemma decision_round_trip_witness :
  let m := [("session", "S1"); ("app", "econ"); ("subsession", "1"); ("round", "2");
            ("group", "3"); ("component", "chat"); ("participant_code", "P1")] in
  re_match _DECISION_RE (decision_path "S1" "econ" "1" "2" "3" "chat" "P1") = Some m
  ∧ groupdict m
    = <["session" := "S1"]> (<["app" := "econ"]> (<["subsession" := "1"]>
        (<["round" := "2"]> (<["group" := "3"]> (<["component" := "chat"]>
          (<["participant_code" := "P1"]> ∅)))))).
Proof.
  apply (decision_round_trip "S1" "econ" "1" "2" "3" "chat" "P1");
    repeat constructor.
Defined.

(** C2, as stated, fails: a session value that is non-empty and holds no
    ['/'] but holds a newline is not read back, the pattern does not match. *)
Lemma round_trip_fails_on_newline :
  let s := "S" +:+ String newline "1" in
  s ≠ "" ∧ free_of slash s
  ∧ Forall (λ v, v ≠ "" ∧ free_of slash v) ["econ"; "1"; "2"; "3"; "chat"; "P1"]
  ∧ re_match _DECISION_RE (decision_path s "econ" "1" "2" "3" "chat" "P1") = None.
Proof.
  split; [done |]. split; [reflexivity |].
  split; [repeat constructor; done |].
  vm_compute. reflexivity.
Qed.

(** ** Running the monad *)

Lemma bind_run {A B} (c : M A) (k : A → M B) st :
  (c ≫= k) st =
  let o := c st in
  match out o with
  | Ok a => let o' := k a (store o) in mkOutcome (out o') (store o') (trace o ++ trace o')
  | Raise e => mkOutcome (Raise e) (store o) (trace o)
  end.
Proof.
  unfold mbind, M_mbind, bind. destruct (c st) as [[a|e] st1 t1]; cbn; [| reflexivity].
  by destruct (k a st1).
Qed.

Lemma attempt_run {A} (c : M A) st :
  attempt c st = mkOutcome (Ok (out (c st))) (store (c st)) (trace (c st)).
Proof. unfold attempt. by destruct (c st). Qed.

Lemma then_run_eq {A B} (o : Outcome A) (c : M B) :
  then_run o c
  = mkOutcome (out (c (store o))) (store (c (store o))) (trace o ++ trace (c (store o))).
Proof. unfold then_run. by destruct (c (store o)). Qed.

Lemma calls_app t1 t2 : calls (t1 ++ t2) = calls t1 ++ calls t2.
Proof. apply omap_app. Qed.

Lemma save_calls_app t1 t2 : save_calls (t1 ++ t2) = save_calls t1 ++ save_calls t2.
Proof. apply omap_app. Qed.

(** ** The decision handler *)

Lemma groupdict_decision s a u r g c p :
  let gd := groupdict (decision_match s a u r g c p) in
  gd !! "session" = Some s ∧ gd !! "app" = Some a ∧ gd !! "subsession" = Some u
  ∧ gd !! "round" = Some r ∧ gd !! "group" = Some g ∧ gd !! "component" = Some c
  ∧ gd !! "participant_code" = Some p.
Proof. repeat split; by vm_compute. Qed.

Section Decision.

Context `{External}.

(** The handler against the contract: it stores what [decode] builds, and
    nothing when [decode] builds nothing or fails. *)
Lemma handle_decision_run s a u r g c p data st :
  _handleDecisionEvent (decision_match s a u r g c p) data st =
  match decode st s a u r g c p data with
  | Ok None => mkOutcome (Ok tt) st []
  | Raise e => mkOutcome (Raise e) st []
  | Ok (Some d) =>
      match save_error st d with
      | Some e => mkOutcome (Raise e) st [SaveCalled d]
      | None => mkOutcome (Ok tt) (add_decision d st) [SaveCalled d]
      end
  end.
Proof.
  destruct (groupdict_decision s a u r g c p) as (Hs & Ha & Hu & Hr & Hg & Hc & Hp).
  unfold _handleDecisionEvent, decode.
  set (gd := groupdict _) in *. clearbody gd.
  unfold Session_objects_get, Participant_objects_get, save, int, getitem.
  unfold mbind, M_mbind, result_mbind, mret, M_ret, result_ret,
    bind, result_bind, lift, attempt, ret, raise, get, modify, emit.
  rewrite Hs, Ha, Hu, Hr, Hg, Hc, Hp. cbn.
  destruct (session_table st !! s) as [sid|]; cbn; [| reflexivity].
  destruct (py_int u) as [uz|]; cbn;
    (destruct (py_int r) as [rz|]; cbn; [| reflexivity]);
    (destruct (py_int g) as [gz|]; cbn; [| reflexivity]);
    (destruct (participant_table st !! p) as [pid|]; cbn; [| reflexivity]);
    match goal with |- context [save_error st ?d] => destruct (save_error st d) end;
    reflexivity.
Qed.

(** A computation calls no handler when neither of its two halves does. *)
Lemma bind_calls_nil {A B} (c : M A) (k : A → M B) st :
  calls (trace (c st)) = [] →
  (∀ a st1, calls (trace (k a st1)) = []) →
  calls (trace ((c ≫= k) st)) = [].
Proof.
  intros Hc Hk. rewrite bind_run. cbv zeta.
  destruct (out (c st)) as [a|e]; cbn; [| exact Hc].
  by rewrite calls_app, Hc, Hk.
Qed.

Lemma attempt_calls {A} (c : M A) st :
  calls (trace (attempt c st)) = calls (trace (c st)).
Proof. by rewrite attempt_run. Qed.

(** Whatever the match object holds, the handler itself calls no handler. *)
Lemma handle_decision_calls m data st :
  calls (trace (_handleDecisionEvent m data st)) = [].
Proof.
  unfold _handleDecisionEvent. cbv zeta.
  set (gd := groupdict m). clearbody gd.
  assert (Hsession : ∀ code st', calls (trace (Session_objects_get code st')) = []).
  { intros code st'. unfold Session_objects_get.
    apply bind_calls_nil; [reflexivity |]. intros st1 st2.
    by destruct (session_table st1 !! code). }
  assert (Hparticipant : ∀ code st',
             calls (trace (Participant_objects_get code st')) = []).
  { intros code st'. unfold Participant_objects_get.
    apply bind_calls_nil; [reflexivity |]. intros st1 st2.
    by destruct (participant_table st1 !! code). }
  assert (Hsave : ∀ d st', calls (trace (save d st')) = []).
  { intros d st'. unfold save.
    apply bind_calls_nil; [reflexivity |]. intros _ st1.
    apply bind_calls_nil; [reflexivity |]. intros st2 st3.
    by destruct (save_error st2 d). }
  apply bind_calls_nil; [reflexivity |]. intros component st1.
  apply bind_calls_nil.
  { rewrite attempt_calls. apply bind_calls_nil; [reflexivity |].
    intros code st2. apply Hsession. }
  intros [sid|e] st2; [| by destruct e].
  apply bind_calls_nil; [reflexivity |]. intros r st3.
  apply bind_calls_nil.
  { destruct r as [z|e]; [reflexivity | by destruct e]. }
  intros d st4.
  apply bind_calls_nil; [reflexivity |]. intros round st5.
  apply bind_calls_nil; [reflexivity |]. intros group st6.
  apply bind_calls_nil.
  { apply bind_calls_nil; [reflexivity |]. intros code st7. apply Hparticipant. }
  intros participant st7.
  apply bind_calls_nil; [reflexivity |]. intros app st8.
  apply Hsave.
Qed.

(** C5.  On a match of the decision pattern: when the session code is
    unknown the handler returns normally, leaves the store as it was and
    neither logs nor saves; when the session is known and the participant
    code is unknown the handler raises, again without saving, and what it
    raises is [Participant.DoesNotExist] as soon as [round] and [group]
    parse. *)
Theorem unknown_session_dropped_unknown_participant_raises path m data st :
  re_match _DECISION_RE path = Some m →
  ∃ s a u r g c p,
    m = decision_match s a u r g c p
    ∧ let o := _handleDecisionEvent m data st in
      (session_table st !! s = None → o = mkOutcome (Ok tt) st [])
      ∧ (is_Some (session_table st !! s) → participant_table st !! p = None →
         ∃ e, o = mkOutcome (Raise e) st []
              ∧ (is_Some (py_int r) → is_Some (py_int g) → e = ParticipantDoesNotExist)).
Proof.
  intros (s & a & u & r & g & c & p & ->)%decision_match_groups.
  exists s, a, u, r, g, c, p. split; [reflexivity |].
  fold (decision_match s a u r g c p). cbv zeta.
  rewrite handle_decision_run. unfold decode. split.
  - by intros ->.
  - intros [sid ->] ->.
    destruct (py_int r) as [rz|]; [destruct (py_int g) as [gz|] |].
    + by exists ParticipantDoesNotExist.
    + exists ValueError. split; [reflexivity |]. by intros _ [? [=]].
    + exists ValueError. split; [reflexivity |]. by intros [? [=]].
Qed.

(** C6.  On a match of the decision pattern with a known session: a
    [round] or [group] that does not parse makes the handler raise
    [ValueError] with nothing saved; a [subsession] that does not parse
    raises nothing, the record goes to [save] with its subsession unset and
    the other fields decoded. *)
Theorem subsession_optional_round_group_required path m data st :
  re_match _DECISION_RE path = Some m →
  ∃ s a u r g c p,
    m = decision_match s a u r g c p
    ∧ let o := _handleDecisionEvent m data st in
      ∀ sid, session_table st !! s = Some sid →
        (py_int r = None ∨ py_int g = None → o = mkOutcome (Raise ValueError) st [])
        ∧ (py_int u = None →
           ∀ rz gz pid,
             py_int r = Some rz → py_int g = Some gz →
             participant_table st !! p = Some pid →
             let d := mkDecision (Some c) (Some sid) None (Some rz) (Some gz)
                                 (Some pid) (Some a) (Some data) in
             trace o = [SaveCalled d]
             ∧ out o = match save_error st d with Some e => Raise e | None => Ok tt end
             ∧ store o = match save_error st d with
                         | Some _ => st
                         | None => add_decision d st
                         end).
Proof.
  intros (s & a & u & r & g & c & p & ->)%decision_match_groups.
  exists s, a, u, r, g, c, p. split; [reflexivity |].
  fold (decision_match s a u r g c p). cbv zeta.
  intros sid Hsid. rewrite handle_decision_run. unfold decode. rewrite Hsid. split.
  - intros [-> | ->]; [reflexivity | by destruct (py_int r)].
  - intros -> rz gz pid -> -> ->. by destruct (save_error st _).
Qed.

(** C9.  On a match of the decision pattern: when the session is unknown,
    or [round] or [group] does not parse, or the participant is unknown,
    [save] is not called and the store is left as it was; when all four
    succeed, [save] is called exactly once, with the fully decoded record,
    and nothing else is written to the trace. *)
Theorem save_called_only_on_full_decode path m data st :
  re_match _DECISION_RE path = Some m →
  ∃ s a u r g c p,
    m = decision_match s a u r g c p
    ∧ let o := _handleDecisionEvent m data st in
      (session_table st !! s = None ∨ py_int r = None ∨ py_int g = None
       ∨ participant_table st !! p = None →
       save_calls (trace o) = [] ∧ store o = st)
      ∧ (∀ sid rz gz pid,
           session_table st !! s = Some sid → py_int r = Some rz →
           py_int g = Some gz → participant_table st !! p = Some pid →
           save_calls (trace o)
           = [mkDecision (Some c) (Some sid) (py_int u) (Some rz) (Some gz)
                         (Some pid) (Some a) (Some data)]
           ∧ length (trace o) = 1).
Proof.
  intros (s & a & u & r & g & c & p & ->)%decision_match_groups.
  exists s, a, u, r, g, c, p. split; [reflexivity |].
  fold (decision_match s a u r g c p). cbv zeta.
  rewrite handle_decision_run. unfold decode. split.
  - intros Hfail.
    destruct (session_table st !! s) as [sid|]; [| done].
    destruct (py_int r) as [rz|]; [| done].
    destruct (py_int g) as [gz|]; [| done].
    destruct (participant_table st !! p) as [pid|]; [| done].
    by destruct Hfail as [? | [? | [? | ?]]].
  - intros sid rz gz pid -> -> -> ->. by destruct (save_error st _).
Qed.

End Decision.
(** ** Dispatch *)

Section Dispatch.

Context {L : RegexLibrary} {E : External}.

Lemma matchAll_cons regex f registry path data :
  matchAll ((regex, f) :: registry) path data
  = match regex_match regex path with
    | Some m => (f, m, data) :: matchAll registry path data
    | None => matchAll registry path data
    end.
Proof. unfold matchAll. cbn -[regex_match]. by destruct (regex_match regex path). Qed.

(** The handlers of the hits are a subsequence of the registry's. *)
Lemma matchAll_sublist registry path data :
  sublist ((λ x : matched, x.1.1) <$> matchAll registry path data) registry.*2.
Proof.
  induction registry as [|[regex f] registry IH]; [constructor |].
  rewrite matchAll_cons. destruct (regex_match regex path); simpl.
  - by apply sublist_skip.
  - by apply sublist_cons.
Qed.

(** The loop over the matchers computes [matchAll]. *)
Lemma collect_matchAll registry payload path data acc :
  subscript payload "path" = Ok (JStr path) →
  subscript payload "data" = Ok data →
  collect registry payload acc = Ok (acc ++ matchAll registry path data).
Proof.
  intros Hp Hd. revert acc.
  induction registry as [|[regex f] registry IH]; intros acc.
  - simpl. by rewrite app_nil_r.
  - rewrite matchAll_cons. cbn [collect]. rewrite Hp, Hd.
    unfold mbind, result_mbind, result_bind. cbn [as_str].
    destruct (regex_match regex path) as [m|]; [| apply IH].
    rewrite IH. by rewrite <- app_assoc.
Qed.

(** The call is the mark followed by what the handler does. *)
Lemma invoke_run f m d st :
  invoke f m d st
  = mkOutcome (out (apply_handler f m d st)) (store (apply_handler f m d st))
              (Invoked f m d :: trace (apply_handler f m d st)).
Proof. unfold invoke. rewrite bind_run. unfold emit. reflexivity. Qed.

Lemma apply_handler_calls f m d st : calls (trace (apply_handler f m d st)) = [].
Proof.
  destruct f as [|id]; cbn.
  - apply handle_decision_calls.
  - by destruct (user_handler id m d st) as [[e|] st'].
Qed.

Lemma invoke_calls f m d st : calls (trace (invoke f m d st)) = [(f, m, d)].
Proof. rewrite invoke_run. cbn. by rewrite apply_handler_calls. Qed.

(** One turn of the second loop: the call, the log record if it raised,
    then the remaining hits in the store the call left. *)
Lemma invoke_all_cons payload path f m d ms st :
  subscript payload "path" = Ok path →
  invoke_all payload ((f, m, d) :: ms) st
  = let o := invoke f m d st in
    let logged := match out o with
                  | Ok _ => []
                  | Raise e => [LogException path e]
                  end in
    then_run (mkOutcome (Ok tt) (store o) (trace o ++ logged)) (invoke_all payload ms).
Proof.
  intros Hp. cbn [invoke_all]. cbv zeta.
  unfold mbind, M_mbind, bind, attempt, then_run.
  destruct (invoke f m d st) as [[[]|e] st1 t1]; cbn.
  - destruct (invoke_all payload ms st1) as [r st2 t2]. by rewrite !app_nil_r.
  - rewrite Hp. cbn. destruct (invoke_all payload ms st1) as [r st2 t2].
    by rewrite <- app_assoc.
Qed.

Lemma invoke_all_app payload path ms1 ms2 st :
  subscript payload "path" = Ok path →
  invoke_all payload (ms1 ++ ms2) st
  = then_run (invoke_all payload ms1 st) (invoke_all payload ms2).
Proof.
  intros Hp. revert st. induction ms1 as [|[[f m] d] ms1 IH]; intros st.
  - unfold then_run. cbn. by destruct (invoke_all payload ms2 st).
  - cbn [app]. rewrite !(invoke_all_cons _ path) by done. cbv zeta.
    rewrite !then_run_eq. cbn [out store trace].
    rewrite IH, then_run_eq. cbn [out store trace]. by rewrite !app_assoc.
Qed.

(** The second loop never raises, and calls exactly the hits, in order. *)
Lemma invoke_all_ok payload path ms st :
  subscript payload "path" = Ok path →
  out (invoke_all payload ms st) = Ok tt
  ∧ calls (trace (invoke_all payload ms st)) = ms.
Proof.
  intros Hp. revert st. induction ms as [|[[f m] d] ms IH]; intros st.
  - by cbn.
  - rewrite (invoke_all_cons _ path) by done. cbv zeta.
    rewrite then_run_eq. cbn [out store trace].
    destruct (IH (store (invoke f m d st))) as [-> Hcalls]. split; [reflexivity |].
    rewrite !calls_app, invoke_calls, Hcalls.
    by destruct (out (invoke f m d st)).
Qed.

(** The loop body on a well-formed envelope: the warning when nothing
    matches, then the calls of the hits found in the registry as it stands
    when the event arrives. *)
Lemma handle_put_run self text payload path data st :
  json_loads text = Some payload →
  subscript payload "path" = Ok (JStr path) →
  subscript payload "data" = Ok data →
  let registry := matchers (threads st self) in
  let hits := matchAll registry path data in
  handle_put self text st
  = then_run (mkOutcome (Ok tt) st
                (if decide (hits = []) then [LogWarning (JStr path) registry] else []))
             (invoke_all payload hits).
Proof.
  intros Hl Hp Hd registry hits. unfold handle_put. rewrite Hl.
  rewrite then_run_eq. cbn [out store trace].
  unfold mbind, M_mbind, bind. cbn -[invoke_all].
  rewrite (collect_matchAll _ _ path data) by done. cbn -[invoke_all].
  fold registry. fold hits.
  destruct hits as [|h hits'] eqn:Hhits; cbn -[invoke_all].
  - repeat case_decide; try done. rewrite Hp. cbn -[invoke_all].
    by destruct (invoke_all payload [] st).
  - repeat case_decide; try done. cbn -[invoke_all].
    by destruct (invoke_all payload (h :: hits') st).
Qed.

(** ** The event loop *)

Lemma run_loop_cons self msg rest st :
  run_loop self (msg :: rest) st
  = let o := handle_message self msg st in
    match out o with
    | Ok _ => then_run o (run_loop self rest)
    | Raise e => mkOutcome (Raise e) (store o) (trace o)
    end.
Proof.
  cbn [run_loop]. unfold mbind, M_mbind, bind, then_run. cbv zeta.
  by destruct (handle_message self msg st) as [[[]|e] st1 t1].
Qed.

Lemma then_run_assoc {A B C} (o : Outcome A) (c1 : M B) (c2 : M C) :
  then_run (then_run o c1) c2
  = then_run o (λ st, then_run (c1 st) c2).
Proof. rewrite !then_run_eq. cbn [out store trace]. by rewrite !app_assoc. Qed.

Lemma run_loop_app self before after st :
  out (run_loop self before st) = Ok tt →
  run_loop self (before ++ after) st
  = then_run (run_loop self before st) (run_loop self after).
Proof.
  revert st. induction before as [|msg before IH]; intros st.
  - intros _. unfold then_run. cbn. by destruct (run_loop self after st).
  - cbn [app]. rewrite !run_loop_cons. cbv zeta.
    destruct (out (handle_message self msg st)) as [[]|e] eqn:Hout; [| done].
    rewrite !then_run_eq. cbn [out store trace]. intros Hrest.
    rewrite IH by done. rewrite then_run_eq. cbn [out store trace].
    by rewrite app_assoc.
Qed.

(** On a well-formed envelope the loop body returns normally, whatever the
    handlers do. *)
Lemma handle_message_ok self msg st :
  well_formed_envelope msg → out (handle_message self msg st) = Ok tt.
Proof.
  intros Hwf. unfold handle_message. case_decide as Hput; [| reflexivity].
  destruct (Hwf Hput) as (payload & p & d & Hl & Hp & Hd).
  rewrite (handle_put_run _ _ payload p d) by done. cbv zeta.
  rewrite then_run_eq. cbn [out store trace].
  by destruct (invoke_all_ok payload (JStr p)
                 (matchAll (matchers (threads st self)) p d) st Hp) as [-> _].
Qed.

Lemma run_loop_ok self msgs st :
  Forall well_formed_envelope msgs → out (run_loop self msgs st) = Ok tt.
Proof.
  intros Hwf. revert st. induction Hwf as [|msg msgs Hmsg _ IH]; intros st.
  - reflexivity.
  - rewrite run_loop_cons. cbv zeta. rewrite handle_message_ok by done.
    rewrite then_run_eq. cbn [out store trace]. apply IH.
Qed.

(** ** The loop body against the dispatch contract *)

Lemma handlers_in_turn_out path hits st : out (handlers_in_turn path hits st) = Ok tt.
Proof. by destruct hits as [|[[f m] d] hits]. Qed.

Lemma handlers_in_turn_calls path hits st :
  calls (trace (handlers_in_turn path hits st)) = hits.
Proof.
  revert st. induction hits as [|[[f m] d] hits IH]; intros st; [reflexivity |].
  cbn [handlers_in_turn trace]. cbn [calls omap list_omap].
  fold (calls (trace (apply_handler f m d st)
                ++ match out (apply_handler f m d st) with
                   | Ok _ => []
                   | Raise e => [LogException path e]
                   end
                ++ trace (handlers_in_turn path hits (store (apply_handler f m d st))))).
  rewrite !calls_app, apply_handler_calls, IH.
  by destruct (out (apply_handler f m d st)).
Qed.

Lemma handlers_in_turn_app path hits1 hits2 st :
  handlers_in_turn path (hits1 ++ hits2) st
  = then_run (handlers_in_turn path hits1 st) (handlers_in_turn path hits2).
Proof.
  rewrite then_run_eq. revert st.
  induction hits1 as [|[[f m] d] hits1 IH]; intros st.
  - cbn. by destruct (handlers_in_turn path hits2 st).
  - cbn [app handlers_in_turn out store trace]. rewrite IH.
    cbn [out store trace]. rewrite handlers_in_turn_out.
    f_equal. cbn. f_equal. by rewrite <- !app_assoc.
Qed.

(** The second loop, with its [try] and bare [except], does what the
    contract says. *)
Lemma invoke_all_in_turn payload path hits st :
  subscript payload "path" = Ok path →
  invoke_all payload hits st = handlers_in_turn path hits st.
Proof.
  intros Hp. revert st. induction hits as [|[[f m] d] hits IH]; intros st.
  - reflexivity.
  - rewrite (invoke_all_cons _ path) by done. cbv zeta.
    rewrite then_run_eq. cbn [out store trace handlers_in_turn].
    rewrite invoke_run. cbn [out store trace]. rewrite IH, handlers_in_turn_out.
    f_equal. cbn. f_equal. by rewrite <- !app_assoc.
Qed.

(** The loop body on a well-formed envelope: the warning when nothing
    matches, then every hit's handler applied in turn. *)
Lemma handle_put_in_turn self text payload p d st :
  json_loads text = Some payload →
  subscript payload "path" = Ok (JStr p) →
  subscript payload "data" = Ok d →
  let registry := matchers (threads st self) in
  let hits := matchAll registry p d in
  handle_put self text st
  = then_run (mkOutcome (Ok tt) st
                (if decide (hits = []) then [LogWarning (JStr p) registry] else []))
             (handlers_in_turn (JStr p) hits).
Proof.
  intros Hl Hp Hd registry hits.
  rewrite (handle_put_run self text payload p d st Hl Hp Hd). cbv zeta.
  fold registry. fold hits. rewrite !then_run_eq. cbn [out store trace].
  by rewrite (invoke_all_in_turn _ (JStr p)).
Qed.

(** A handler of the hits that raises leaves its exception record, with
    the path, in the trace of the hits. *)
Lemma handlers_in_turn_logged path pre f m d post e st :
  out (apply_handler f m d (store (handlers_in_turn path pre st))) = Raise e →
  LogException path e ∈ trace (handlers_in_turn path (pre ++ (f, m, d) :: post) st).
Proof.
  intros Hraise. rewrite handlers_in_turn_app, then_run_eq. cbn [trace].
  apply elem_of_app. right. cbn [handlers_in_turn trace]. rewrite Hraise.
  apply list_elem_of_further, elem_of_app. right. apply list_elem_of_here.
Qed.

(** [run] writes its start-up record, then what the loop writes. *)
Lemma run_trace self msgs st :
  trace (run self msgs st)
  = LogInfo (fbURL (threads st self)) :: trace (run_loop self msgs st).
Proof.
  unfold run, mbind, M_mbind, bind, get, emit. cbn.
  by destruct (run_loop self msgs st) as [[[]|e] st1 t1].
Qed.

(** C3, as amended.  No error raised while a matched handler runs ends the
    event loop: it is caught and logged with the event's path, and the loop
    goes on.  Decoding the envelope is not guarded; on a stream whose
    [put] messages all carry a well-formed envelope, [run] reaches the end
    of the stream normally, and every message is handled in turn, in the
    store left by the messages before it: each handler its path matches is
    applied, and whatever one of them raises is in the log of that message
    and of the whole run. *)
Theorem run_survives_handler_errors self msgs st :
  Forall well_formed_envelope msgs →
  out (run self msgs st) = Ok tt
  ∧ ∀ before msg after,
      msgs = before ++ msg :: after →
      let o1 := run_loop self before st in
      let o2 := handle_message self msg (store o1) in
      out o1 = Ok tt ∧ out o2 = Ok tt
      ∧ run_loop self msgs st
        = then_run (then_run o1 (handle_message self msg)) (run_loop self after)
      ∧ ∀ payload p d,
          event msg = "put" →
          json_loads (data msg) = Some payload →
          subscript payload "path" = Ok (JStr p) →
          subscript payload "data" = Ok d →
          let registry := matchers (threads (store o1) self) in
          let hits := matchAll registry p d in
          o2 = then_run (mkOutcome (Ok tt) (store o1)
                           (if decide (hits = [])
                            then [LogWarning (JStr p) registry] else []))
                        (handlers_in_turn (JStr p) hits)
          ∧ ∀ pre f m dm post e,
              hits = pre ++ (f, m, dm) :: post →
              out (apply_handler f m dm
                     (store (handlers_in_turn (JStr p) pre (store o1)))) = Raise e →
              LogException (JStr p) e ∈ trace o2
              ∧ LogException (JStr p) e ∈ trace (run self msgs st).
Proof.
  intros Hwf. split.
  - unfold run. rewrite !bind_run. unfold get, emit. cbn.
    rewrite bind_run. cbn. by rewrite run_loop_ok.
  - intros before msg after ->.
    apply Forall_app in Hwf as [Hbefore Hrest].
    apply Forall_cons in Hrest as [Hmsg Hafter]. cbv zeta.
    pose proof (run_loop_ok self before st Hbefore) as Ho1.
    pose proof (handle_message_ok self msg (store (run_loop self before st)) Hmsg) as Ho2.
    assert (Hloop : run_loop self (before ++ msg :: after) st
                    = then_run (then_run (run_loop self before st)
                                         (handle_message self msg))
                               (run_loop self after)).
    { rewrite run_loop_app by done. rewrite !then_run_eq. cbn [out store trace].
      rewrite run_loop_cons. cbv zeta. rewrite Ho2, then_run_eq.
      cbn [out store trace]. by rewrite app_assoc. }
    split; [exact Ho1 |]. split; [exact Ho2 |]. split; [exact Hloop |].
    intros payload p d Hput Hl Hp Hd.
    assert (Hmsg2 : handle_message self msg (store (run_loop self before st))
                    = handle_put self (data msg) (store (run_loop self before st))).
    { unfold handle_message. by case_decide. }
    pose proof (handle_put_in_turn self (data msg) payload p d
                  (store (run_loop self before st)) Hl Hp Hd) as Hturn.
    cbv zeta in Hturn. rewrite <- Hmsg2 in Hturn.
    split; [exact Hturn |].
    intros pre f m dm post e Hhits Hraise.
    assert (Hin : LogException (JStr p) e
                  ∈ trace (handle_message self msg (store (run_loop self before st)))).
    { rewrite Hturn, then_run_eq. cbn [out store trace]. rewrite Hhits.
      apply elem_of_app. right. by apply handlers_in_turn_logged. }
    split; [exact Hin |].
    rewrite run_trace, Hloop, !then_run_eq. cbn [out store trace].
    apply list_elem_of_further.
    apply elem_of_app. left. apply elem_of_app. by right.
Qed.

(** What the loop body does with any decodable event. *)
Lemma handle_put_outcome self text payload p d rest st :
  json_loads text = Some payload →
  subscript payload "path" = Ok (JStr p) →
  subscript payload "data" = Ok d →
  let o := handle_put self text st in
  out o = Ok tt
  ∧ calls (trace o) = matchAll (matchers (threads st self)) p d
  ∧ run_loop self (mkMessage "put" text :: rest) st = then_run o (run_loop self rest).
Proof.
  intros Hl Hp Hd o.
  pose proof (handle_put_run self text payload p d st Hl Hp Hd) as Hrun.
  cbv zeta in Hrun. fold o in Hrun.
  rewrite then_run_eq in Hrun. cbn [out store trace] in Hrun.
  destruct (invoke_all_ok payload (JStr p)
              (matchAll (matchers (threads st self)) p d) st Hp) as [Hout Hcalls].
  assert (Ho : out o = Ok tt) by (by rewrite Hrun).
  split; [exact Ho |]. split.
  - rewrite Hrun. cbn [trace]. rewrite calls_app, Hcalls. by case_decide.
  - rewrite run_loop_cons. cbv zeta. unfold handle_message. cbn [event data].
    destruct (decide ("put" = "put")) as [_|Hne]; [| done]. fold o. by rewrite Ho.
Qed.

(** C7, as amended.  For an event whose envelope decodes to a path and a
    data value, the loop body returns normally and applies exactly the
    handlers of the registrations whose pattern matches the path, each
    once, in registration order, each in the store the one before it left
    (the applied handlers are a subsequence of the registry's); when none
    matches it writes the one warning, applies no handler and leaves the
    store as it was; in either case the loop goes on with the next
    message. *)
Theorem dispatch_in_registration_order self text payload p d rest st :
  json_loads text = Some payload →
  subscript payload "path" = Ok (JStr p) →
  subscript payload "data" = Ok d →
  let registry := matchers (threads st self) in
  let hits := matchAll registry p d in
  let o := handle_put self text st in
  o = then_run (mkOutcome (Ok tt) st
                  (if decide (hits = []) then [LogWarning (JStr p) registry] else []))
               (handlers_in_turn (JStr p) hits)
  ∧ out o = Ok tt
  ∧ calls (trace o) = hits
  ∧ sublist ((λ x : matched, x.1.1) <$> calls (trace o)) registry.*2
  ∧ (hits = [] → o = mkOutcome (Ok tt) st [LogWarning (JStr p) registry])
  ∧ run_loop self (mkMessage "put" text :: rest) st = then_run o (run_loop self rest).
Proof.
  intros Hl Hp Hd registry hits o.
  destruct (handle_put_outcome self text payload p d rest st Hl Hp Hd)
    as (Ho & Hc & Hnext).
  fold registry in Hc. fold hits in Hc. fold o in Ho, Hc, Hnext.
  pose proof (handle_put_in_turn self text payload p d st Hl Hp Hd) as Hturn.
  cbv zeta in Hturn. fold registry in Hturn. fold hits in Hturn. fold o in Hturn.
  split; [exact Hturn |]. split; [exact Ho |]. split; [exact Hc |].
  split; [| split; [| exact Hnext]].
  - rewrite Hc. apply matchAll_sublist.
  - intros Hnone. rewrite Hturn, Hnone. by case_decide.
Qed.

(** C4.  For an event whose envelope decodes: when one of the matched
    handlers raises, in the store the handlers before it left, the loop body
    still returns normally; the exception is logged with the event's path
    right after what that handler did; every matched handler after it is
    still applied, in order, starting in the store the raising handler
    left; and the loop goes on with the next message. *)
Theorem handler_exception_isolated self text payload p d pre f m dm post e rest st :
  json_loads text = Some payload →
  subscript payload "path" = Ok (JStr p) →
  subscript payload "data" = Ok d →
  matchAll (matchers (threads st self)) p d = pre ++ (f, m, dm) :: post →
  let o1 := handlers_in_turn (JStr p) pre st in
  let o2 := apply_handler f m dm (store o1) in
  out o2 = Raise e →
  let o3 := handlers_in_turn (JStr p) post (store o2) in
  let o := handle_put self text st in
  o = mkOutcome (Ok tt) (store o3)
        (trace o1 ++ Invoked f m dm :: trace o2 ++ LogException (JStr p) e :: trace o3)
  ∧ calls (trace o) = pre ++ (f, m, dm) :: post
  ∧ calls (trace o1) = pre ∧ calls (trace o3) = post
  ∧ (∀ f' m' d' post',
       post = (f', m', d') :: post' →
       ∃ t, trace o3 = Invoked f' m' d' :: trace (apply_handler f' m' d' (store o2)) ++ t)
  ∧ run_loop self (mkMessage "put" text :: rest) st = then_run o (run_loop self rest).
Proof.
  intros Hl Hp Hd Hhits o1 o2 Hraise o3 o.
  destruct (handle_put_outcome self text payload p d rest st Hl Hp Hd)
    as (Ho & Hc & Hnext).
  fold o in Ho, Hc, Hnext. rewrite Hhits in Hc.
  pose proof (handle_put_in_turn self text payload p d st Hl Hp Hd) as Hturn.
  cbv zeta in Hturn. fold o in Hturn. rewrite Hhits in Hturn.
  case_decide as Hnil; [by destruct pre |].
  rewrite then_run_eq in Hturn. cbn [out store trace app] in Hturn.
  rewrite handlers_in_turn_app, then_run_eq in Hturn.
  cbn [out store trace handlers_in_turn] in Hturn.
  fold o1 in Hturn. fold o2 in Hturn. rewrite Hraise in Hturn. fold o3 in Hturn.
  split; [| split; [exact Hc | split; [| split; [| split; [| exact Hnext]]]]].
  - rewrite Hturn. f_equal; cbn; by rewrite <- ?app_assoc.
  - apply handlers_in_turn_calls.
  - apply handlers_in_turn_calls.
  - intros f' m' d' post' ->. unfold o3. cbn [handlers_in_turn trace].
    eexists. reflexivity.
Qed.

(** C10.  For an event whose envelope decodes, the handlers called are the
    hits found in the registry as it stood when the event arrived, whatever
    the handlers do to the store meanwhile: after any first part of the
    hits has run, in whatever store it left, the calls still to come are
    the rest of the hits, no more and no fewer. *)
Theorem dispatch_fixed_before_handlers_run self text payload p d st :
  json_loads text = Some payload →
  subscript payload "path" = Ok (JStr p) →
  subscript payload "data" = Ok d →
  let hits := matchAll (matchers (threads st self)) p d in
  calls (trace (handle_put self text st)) = hits
  ∧ ∀ done_ todo,
      hits = done_ ++ todo →
      let o1 := invoke_all payload done_ st in
      trace (handle_put self text st)
      = (if decide (hits = []) then [LogWarning (JStr p) (matchers (threads st self))]
         else [])
        ++ trace o1 ++ trace (invoke_all payload todo (store o1))
      ∧ calls (trace (invoke_all payload todo (store o1))) = todo.
Proof.
  intros Hl Hp Hd hits.
  pose proof (handle_put_run self text payload p d st Hl Hp Hd) as Hrun.
  cbv zeta in Hrun. fold hits in Hrun.
  rewrite then_run_eq in Hrun. cbn [out store trace] in Hrun. split.
  - rewrite Hrun. cbn [trace]. rewrite calls_app.
    destruct (invoke_all_ok payload (JStr p) hits st Hp) as [_ ->]. by case_decide.
  - intros done_ todo Hsplit o1. split.
    + rewrite Hrun. cbn [trace]. f_equal. rewrite Hsplit.
      rewrite (invoke_all_app _ (JStr p)), then_run_eq by done. reflexivity.
    + by destruct (invoke_all_ok payload (JStr p) todo (store o1) Hp) as [_ ->].
Qed.

End Dispatch.

(** ** Registration *)

Section Registration.

Context {L : RegexLibrary}.

(** C8, as amended.  For a pattern text that [re.compile] accepts, in the
    fragment or not, [register_path] succeeds whenever the global watcher
    is bound, and then appends the registration at the end of that
    watcher's registry and touches no other thread object; in particular
    it succeeds right after [start], where the registry becomes the
    built-in registration followed by the new one.  While the global
    watcher is unbound, that is before [start] has run, [register_path]
    raises [NameError] and registers nothing. *)
Theorem register_path_appends_once_started path regex handlerFunction st :
  re_compile path = Some regex →
  (∀ t, watchThread st = Some t →
        let o := register_path path handlerFunction st in
        out o = Ok tt ∧ trace o = []
        ∧ matchers (threads (store o) t)
          = matchers (threads st t) ++ [(regex, handlerFunction)]
        ∧ watchThread (store o) = Some t
        ∧ ∀ t', t' ≠ t → threads (store o) t' = threads st t')
  ∧ (let o := (start ≫= λ _, register_path path handlerFunction) st in
     out o = Ok tt
     ∧ ∃ t, watchThread (store o) = Some t
            ∧ matchers (threads (store o) t)
              = [(Frag _DECISION_RE, HandleDecision); (regex, handlerFunction)])
  ∧ (watchThread st = None →
     register_path path handlerFunction st
     = mkOutcome (Raise (NameError "_watchThread")) st []).
Proof.
  intros Hre. destruct st as [w ths n ss ps ds]. split; [| split].
  - intros t Hw. cbn in Hw. subst w.
    unfold register_path, mbind, M_mbind, bind, get, modify. cbn. rewrite Hre. cbn.
    repeat split.
    + by case_decide.
    + intros t' Hne. by case_decide.
  - unfold start, register_path, mbind, M_mbind, bind, get, modify. cbn.
    rewrite Hre. cbn. split; [reflexivity |]. exists n. split; [reflexivity |].
    by case_decide.
  - cbn. by intros ->.
Qed.

End Registration.

(** C8, as stated, fails: before [start] has run, a well-formed pattern is
    not registered; the call raises. *)
Lemma register_path_before_start_raises :
  re_compile (L := sample_library) sample_template = Some (Frag sample_regex)
  ∧ watchThread initial_store = None
  ∧ register_path (L := sample_library) sample_template (UserHandler 1) initial_store
    = mkOutcome (Raise (NameError "_watchThread")) initial_store [].
Proof. split; [by vm_compute |]. split; reflexivity. Qed.

(** A pattern in other syntax, registered on the started sample watcher. *)
Lemma register_path_appends_once_started_witness :
  re_compile (L := sample_library) logs_template = Some (Lib logs_template)
  ∧ out (register_path (L := sample_library) logs_template (UserHandler 1) sample_store)
    = Ok tt
  ∧ matchers (threads (store (register_path (L := sample_library) logs_template
                                (UserHandler 1) sample_store)) 0)
    = matchers (threads sample_store 0) ++ [(Lib logs_template, UserHandler 1)].
Proof.
  assert (Hre : re_compile (L := sample_library) logs_template = Some (Lib logs_template))
    by (by vm_compute).
  split; [exact Hre |].
  destruct (register_path_appends_once_started (L := sample_library)
              logs_template (Lib logs_template) (UserHandler 1) sample_store Hre)
    as [Hstarted _].
  destruct (Hstarted 0 eq_refl) as (Hout & _ & Hmatchers & _).
  split; [exact Hout | exact Hmatchers].
Defined.

(** The registered pattern routes [/logs/42] and not [/logs/]. *)
Example logs_template_matches :
  regex_match (L := sample_library) (Lib logs_template) "/logs/42/x" = Some [("id", "42")]
  ∧ regex_match (L := sample_library) (Lib logs_template) "/logs/" = None.
Proof. split; by vm_compute. Qed.

(** ** The properties at the sample deployment *)

Section Samples.

#[local] Existing Instance sample_external.
#[local] Existing Instance sample_library.

Lemma sample_path_matches : re_match _DECISION_RE sample_path = Some sample_match.
Proof. by vm_compute. Qed.

Lemma sample_envelope :
  json_loads sample_text = Some sample_payload
  ∧ subscript sample_payload "path" = Ok (JStr sample_path)
  ∧ subscript sample_payload "data" = Ok (JInt 5).
Proof. repeat split; by vm_compute. Qed.

(** A session the deployment does not manage: the event is dropped. *)
Lemma unknown_session_dropped_unknown_participant_raises_witness :
  re_match _DECISION_RE sample_path = Some sample_match
  ∧ session_table initial_store !! "S1" = None
  ∧ _handleDecisionEvent sample_match (JInt 5) initial_store
    = mkOutcome (Ok tt) initial_store [].
Proof.
  split; [exact sample_path_matches |]. split; [reflexivity |].
  destruct (unknown_session_dropped_unknown_participant_raises
              sample_path sample_match (JInt 5) initial_store sample_path_matches)
    as (s & a & u & r & g & c & p & Hm & Hdrop & _).
  injection Hm as <- <- <- <- <- <- <-. by apply Hdrop.
Defined.

(** The sample store without participant [P1]. *)
Example unknown_participant_raises :
  out (_handleDecisionEvent sample_match (JInt 5)
         (mkStore (Some 0) (threads sample_store) 1 {[ "S1" := 1 ]} ∅ []))
  = Raise ParticipantDoesNotExist.
Proof. by vm_compute. Qed.

Lemma subsession_optional_round_group_required_witness :
  re_match _DECISION_RE
    "/session/S1/app/econ/subsession/abc/round/2/group/3/component/chat/decisions/P1"
  = Some (decision_match "S1" "econ" "abc" "2" "3" "chat" "P1")
  ∧ py_int "abc" = None
  ∧ save_calls (trace (_handleDecisionEvent
                         (decision_match "S1" "econ" "abc" "2" "3" "chat" "P1")
                         (JInt 5) sample_store))
    = [mkDecision (Some "chat") (Some 1) None (Some 2%Z) (Some 3%Z) (Some 7)
                  (Some "econ") (Some (JInt 5))].
Proof.
  assert (Hm : re_match _DECISION_RE
                 "/session/S1/app/econ/subsession/abc/round/2/group/3/component/chat/decisions/P1"
               = Some (decision_match "S1" "econ" "abc" "2" "3" "chat" "P1"))
    by (by vm_compute).
  split; [exact Hm |]. split; [reflexivity |].
  destruct (subsession_optional_round_group_required _ _ (JInt 5) sample_store Hm)
    as (s & a & u & r & g & c & p & Heq & Hdec).
  injection Heq as <- <- <- <- <- <- <-.
  destruct (Hdec 1 eq_refl) as [_ Hsub].
  destruct (Hsub eq_refl 2%Z 3%Z 7 eq_refl eq_refl eq_refl) as (-> & _).
  reflexivity.
Defined.

Example round_must_parse :
  _handleDecisionEvent (decision_match "S1" "econ" "1" "abc" "3" "chat" "P1")
    (JInt 5) sample_store
  = mkOutcome (Raise ValueError) sample_store [].
Proof. rewrite handle_decision_run. reflexivity. Qed.

Lemma save_called_only_on_full_decode_witness :
  re_match _DECISION_RE sample_path = Some sample_match
  ∧ save_calls (trace (_handleDecisionEvent sample_match (JInt 5) sample_store))
    = [mkDecision (Some "chat") (Some 1) (Some 1%Z) (Some 2%Z) (Some 3%Z) (Some 7)
                  (Some "econ") (Some (JInt 5))]
  ∧ length (trace (_handleDecisionEvent sample_match (JInt 5) sample_store)) = 1.
Proof.
  split; [exact sample_path_matches |].
  destruct (save_called_only_on_full_decode
              sample_path sample_match (JInt 5) sample_store sample_path_matches)
    as (s & a & u & r & g & c & p & Heq & _ & Hsave).
  injection Heq as <- <- <- <- <- <- <-.
  exact (Hsave 1 2%Z 3%Z 7 eq_refl eq_refl eq_refl eq_refl).
Defined.

(** The decoded record reaches the table. *)
Example sample_decision_saved :
  decision_table (store (_handleDecisionEvent sample_match (JInt 5) sample_store))
  = [mkDecision (Some "chat") (Some 1) (Some 1%Z) (Some 2%Z) (Some 3%Z) (Some 7)
                (Some "econ") (Some (JInt 5))].
Proof. by vm_compute. Qed.

(** Three registrations match the sample path; the second handler raises. *)
Lemma dispatch_in_registration_order_witness :
  (json_loads sample_text = Some sample_payload
   ∧ subscript sample_payload "path" = Ok (JStr sample_path)
   ∧ subscript sample_payload "data" = Ok (JInt 5))
  ∧ let registry := matchers (threads busy_store 0) in
    let hits := matchAll registry sample_path (JInt 5) in
    let o := handle_put 0 sample_text busy_store in
    o = then_run (mkOutcome (Ok tt) busy_store
                    (if decide (hits = [])
                     then [LogWarning (JStr sample_path) registry] else []))
                 (handlers_in_turn (JStr sample_path) hits)
    ∧ out o = Ok tt
    ∧ calls (trace o) = hits
    ∧ sublist ((λ x : matched, x.1.1) <$> calls (trace o)) registry.*2
    ∧ (hits = [] → o = mkOutcome (Ok tt) busy_store [LogWarning (JStr sample_path) registry])
    ∧ run_loop 0 [mkMessage "put" sample_text] busy_store = then_run o (run_loop 0 []).
Proof.
  split; [exact sample_envelope |].
  destruct sample_envelope as (Hl & Hp & Hd).
  exact (dispatch_in_registration_order 0 sample_text sample_payload sample_path
           (JInt 5) [] busy_store Hl Hp Hd).
Defined.

Example busy_dispatch :
  calls (trace (handle_put 0 sample_text busy_store))
  = [(HandleDecision, sample_match, JInt 5);
     (UserHandler 0, sample_session_match, JInt 5);
     (UserHandler 1, sample_session_match, JInt 5)].
Proof. by vm_compute. Qed.

(** Nothing is registered for [/logs/x]: one warning, no call. *)
Example unmatched_path_warns :
  trace (handle_put 0 text_elsewhere sample_store)
  = [LogWarning (JStr "/logs/x") [(Frag _DECISION_RE, HandleDecision)]].
Proof. by vm_compute. Qed.

Lemma handler_exception_isolated_witness :
  (matchAll (matchers (threads busy_store 0)) sample_path (JInt 5)
   = [(HandleDecision, sample_match, JInt 5)]
     ++ (UserHandler 0, sample_session_match, JInt 5)
     :: [(UserHandler 1, sample_session_match, JInt 5)]
   ∧ out (apply_handler (UserHandler 0) sample_session_match (JInt 5)
            (store (handlers_in_turn (JStr sample_path)
                      [(HandleDecision, sample_match, JInt 5)] busy_store)))
     = Raise (OtherError 0))
  ∧ let o1 := handlers_in_turn (JStr sample_path)
                [(HandleDecision, sample_match, JInt 5)] busy_store in
    let o2 := apply_handler (UserHandler 0) sample_session_match (JInt 5) (store o1) in
    let o3 := handlers_in_turn (JStr sample_path)
                [(UserHandler 1, sample_session_match, JInt 5)] (store o2) in
    let o := handle_put 0 sample_text busy_store in
    o = mkOutcome (Ok tt) (store o3)
          (trace o1 ++ Invoked (UserHandler 0) sample_session_match (JInt 5)
           :: trace o2 ++ LogException (JStr sample_path) (OtherError 0) :: trace o3)
    ∧ calls (trace o)
      = [(HandleDecision, sample_match, JInt 5)]
        ++ (UserHandler 0, sample_session_match, JInt 5)
        :: [(UserHandler 1, sample_session_match, JInt 5)].
Proof.
  assert (Hhits : matchAll (matchers (threads busy_store 0)) sample_path (JInt 5)
                  = [(HandleDecision, sample_match, JInt 5)]
                    ++ (UserHandler 0, sample_session_match, JInt 5)
                    :: [(UserHandler 1, sample_session_match, JInt 5)])
    by (by vm_compute).
  assert (Hraise : out (apply_handler (UserHandler 0) sample_session_match (JInt 5)
                          (store (handlers_in_turn (JStr sample_path)
                                    [(HandleDecision, sample_match, JInt 5)] busy_store)))
                   = Raise (OtherError 0))
    by (by vm_compute).
  split; [by split |].
  destruct sample_envelope as (Hl & Hp & Hd).
  destruct (handler_exception_isolated 0 sample_text sample_payload sample_path (JInt 5)
              _ _ _ _ _ _ [] busy_store Hl Hp Hd Hhits Hraise)
    as (Heq & Hcalls & _).
  split; [exact Heq | exact Hcalls].
Defined.

(** The decision is stored although a later handler raises, and the
    handler after the raising one runs. *)
Example busy_store_after :
  decision_table (store (handle_put 0 sample_text busy_store))
  = [mkDecision (Some "chat") (Some 1) (Some 1%Z) (Some 2%Z) (Some 3%Z) (Some 7)
                (Some "econ") (Some (JInt 5))].
Proof. by vm_compute. Qed.

Example busy_trace :
  trace (handle_put 0 sample_text busy_store)
  = [Invoked HandleDecision sample_match (JInt 5);
     SaveCalled (mkDecision (Some "chat") (Some 1) (Some 1%Z) (Some 2%Z) (Some 3%Z)
                            (Some 7) (Some "econ") (Some (JInt 5)));
     Invoked (UserHandler 0) sample_session_match (JInt 5);
     LogException (JStr sample_path) (OtherError 0);
     Invoked (UserHandler 1) sample_session_match (JInt 5)].
Proof. by vm_compute. Qed.

(** Handler 2 registers handler 1 while the event is dispatched. *)
Lemma dispatch_fixed_before_handlers_run_witness :
  (json_loads sample_text = Some sample_payload
   ∧ subscript sample_payload "path" = Ok (JStr sample_path)
   ∧ subscript sample_payload "data" = Ok (JInt 5))
  ∧ calls (trace (handle_put 0 sample_text growing_store))
    = matchAll (matchers (threads growing_store 0)) sample_path (JInt 5).
Proof.
  split; [exact sample_envelope |].
  destruct sample_envelope as (Hl & Hp & Hd).
  exact (proj1 (dispatch_fixed_before_handlers_run 0 sample_text sample_payload
                  sample_path (JInt 5) growing_store Hl Hp Hd)).
Defined.

(** The registration made meanwhile matches the path, is in the registry
    afterwards, was not called for the event in progress, and is called
    for the next one. *)
Example registration_during_dispatch :
  let o := handle_put 0 sample_text growing_store in
  calls (trace o)
  = [(HandleDecision, sample_match, JInt 5);
     (UserHandler 2, sample_session_match, JInt 5)]
  ∧ matchers (threads (store o) 0)
    = [(Frag _DECISION_RE, HandleDecision); (Frag sample_regex, UserHandler 2);
       (Frag sample_regex, UserHandler 1)]
  ∧ calls (trace (handle_put 0 sample_text (store o)))
    = [(HandleDecision, sample_match, JInt 5);
       (UserHandler 2, sample_session_match, JInt 5);
       (UserHandler 1, sample_session_match, JInt 5)].
Proof. by vm_compute. Qed.

Lemma sample_stream_well_formed : Forall well_formed_envelope sample_stream.
Proof.
  assert (Hgood : well_formed_envelope (mkMessage "put" sample_text)).
  { intros _. exists sample_payload, sample_path, (JInt 5). exact sample_envelope. }
  assert (Hother : well_formed_envelope (mkMessage "keep-alive" "null")).
  { intros Hput. cbn in Hput. by apply String.eqb_eq in Hput. }
  assert (Helse : well_formed_envelope (mkMessage "put" text_elsewhere)).
  { intros _. exists payload_elsewhere, "/logs/x", JNull.
    split; [by vm_compute |]. split; reflexivity. }
  unfold sample_stream.
  apply Forall_cons_2; [exact Hgood |].
  apply Forall_cons_2; [exact Hother |].
  apply Forall_cons_2; [exact Helse |].
  apply Forall_cons_2; [exact Hgood |].
  apply Forall_nil_2.
Qed.

Lemma run_survives_handler_errors_witness :
  Forall well_formed_envelope sample_stream
  ∧ out (run 0 sample_stream busy_store) = Ok tt.
Proof.
  split; [exact sample_stream_well_formed |].
  exact (proj1 (run_survives_handler_errors 0 sample_stream busy_store
                  sample_stream_well_formed)).
Defined.

(** C3, as stated, fails: a [put] message whose text is not JSON, or whose
    payload has no [path], ends [run] with the exception, and the message
    after it, which alone is dispatched to the decision handler, is never
    looked at. *)
Lemma envelope_error_ends_loop :
  let good := mkMessage "put" sample_text in
  let broken := mkMessage "put" broken_text in
  let pathless := mkMessage "put" text_without_path in
  calls (trace (run 0 [good] sample_store)) = [(HandleDecision, sample_match, JInt 5)]
  ∧ out (run 0 [broken; good] sample_store) = Raise JSONDecodeError
  ∧ calls (trace (run 0 [broken; good] sample_store)) = []
  ∧ out (run 0 [pathless; good] sample_store) = Raise (KeyError "path")
  ∧ calls (trace (run 0 [pathless; good] sample_store)) = [].
Proof. repeat split; by vm_compute. Qed.

End Samples.

(* ===================================================================== *)
(** * Part 5: further properties of the pattern language                  *)
(* ===================================================================== *)

Lemma first_line_idemp s : first_line (first_line s) = first_line s.
Proof.
  induction s as [|c s IH]; simpl; [reflexivity |].
  destruct (is_newline c) eqn:Hc; simpl; [reflexivity |]. by rewrite Hc, IH.
Qed.

(** The greedy group only looks at the first line when the rest does. *)
Lemma dotstar_first_line k s :
  (∀ t, k t = k (first_line t)) → dotstar k s = dotstar k (first_line s).
Proof.
  intros Hk. induction s as [|c s IH]; [reflexivity |].
  cbn [dotstar first_line]. destruct (is_newline c) eqn:Hc.
  - cbn [dotstar]. rewrite (Hk (String c s)). cbn [first_line]. by rewrite Hc.
  - cbn [dotstar]. rewrite Hc, <- IH.
    rewrite (Hk (String c s)), (Hk (String c (first_line s))).
    cbn [first_line]. by rewrite Hc, first_line_idemp.
Qed.

(** X1.  A pattern without a literal newline reads only the first line of
    the path: whatever follows the first newline changes neither whether
    the pattern matches nor what it captures. *)
Theorem re_match_reads_first_line p s :
  no_newline_literal p = true → re_match p s = re_match p (first_line s).
Proof.
  revert s. induction p as [|[c|n] p IH]; intros s Hp; cbn [re_match].
  - reflexivity.
  - cbn in Hp. apply andb_prop in Hp as [Hc Hp]. apply negb_true_iff in Hc.
    destruct s as [|c' s]; [reflexivity |]. cbn [first_line].
    destruct (is_newline c') eqn:Hc'.
    + destruct (Ascii.eqb c c') eqn:E; [| reflexivity].
      apply Ascii.eqb_eq in E as <-. congruence.
    + destruct (Ascii.eqb c c'); [by apply IH | reflexivity].
  - cbn in Hp. f_equal. apply dotstar_first_line. intros t. by apply IH.
Qed.

Lemma re_match_reads_first_line_witness :
  no_newline_literal _DECISION_RE = true
  ∧ re_match _DECISION_RE (sample_path +:+ String newline "/decisions/P2")
    = re_match _DECISION_RE (first_line (sample_path +:+ String newline "/decisions/P2")).
Proof.
  split; [reflexivity |].
  apply (re_match_reads_first_line _DECISION_RE). reflexivity.
Defined.

(** If the rest of the pattern matches some suffix reached over text
    without a newline, the group finds a match. *)
Lemma dotstar_some k v t :
  free_of newline v → is_Some (k t) → is_Some (dotstar k (v +:+ t)).
Proof.
  intros Hv [m Hk]. induction v as [|c v IH].
  - destruct t as [|c t]; simpl; rewrite Hk; simpl; [by eexists |].
    destruct (is_newline c); [by eexists |].
    destruct (dotstar k t) as [[v' m']|]; by eexists.
  - apply free_of_cons in Hv as [Hc Hv]. simpl. unfold is_newline. rewrite Hc.
    destruct (IH Hv) as [[v' m'] ->]. by eexists.
Qed.

Lemma re_match_complete p vs rest :
  length vs = length (cap_names p) →
  Forall (free_of newline) vs →
  is_Some (re_match p (render p vs +:+ rest)).
Proof.
  revert vs. induction p as [|[c|n] p IH]; intros vs Hl Hn.
  - by eexists.
  - simpl. rewrite Ascii.eqb_refl. by apply IH.
  - destruct vs as [|v vs]; [done |]. injection Hl as Hl.
    apply Forall_cons in Hn as [Hv Hn]. cbn [re_match render].
    rewrite append_assoc. apply fmap_is_Some. apply dotstar_some; [done |].
    by apply IH.
Qed.

(** X2.  A pattern matches a text exactly when the text begins with the
    pattern filled in with some values that hold no newline: the
    backtracking search misses no way of matching and invents none. *)
Theorem re_match_iff_filled_template p s :
  is_Some (re_match p s)
  ↔ ∃ vs rest, length vs = length (cap_names p)
               ∧ Forall (free_of newline) vs
               ∧ s = render p vs +:+ rest.
Proof.
  split.
  - intros [m Hm]. destruct (re_match_sound _ _ _ Hm) as [Hfree [rest Hs]].
    exists m.*2, rest. split; [| done].
    rewrite <- (re_match_names _ _ _ Hm). by rewrite !length_fmap.
  - intros (vs & rest & Hl & Hn & ->). by apply re_match_complete.
Qed.

Lemma dotstar_none_inv k s :
  dotstar k s = None →
  ∀ a t, s = a +:+ t → free_of newline a → k t = None.
Proof.
  induction s as [|c s IH]; intros Hnone a t Hs Ha.
  - destruct a; [| done]. simpl in Hs. subst t. simpl in Hnone.
    by destruct (k "").
  - simpl in Hnone.
    assert (Hstop : k (String c s) = None).
    { destruct (is_newline c); [by destruct (k (String c s)) |].
      destruct (dotstar k s) as [[? ?]|]; [done |]. by destruct (k (String c s)). }
    destruct a as [|x a]; [simpl in Hs; by subst t |].
    simpl in Hs. injection Hs as <- ->.
    apply free_of_cons in Ha as [Hc Ha]. unfold is_newline in Hnone.
    rewrite Hc in Hnone.
    destruct (dotstar k (a +:+ t)) as [[? ?]|] eqn:E; [done |].
    by apply (IH eq_refl a t).
Qed.

Lemma dotstar_greedy k s v m :
  dotstar k s = Some (v, m) →
  ∀ v' t', s = v' +:+ t' → free_of newline v' →
           (String.length v < String.length v')%nat → k t' = None.
Proof.
  revert v m. induction s as [|c s IH]; intros v m Hd v' t' Hs Hv' Hlen.
  - destruct v'; [simpl in Hlen; lia | done].
  - destruct v' as [|x v']; [simpl in Hlen; lia |].
    simpl in Hs. injection Hs as <- ->.
    apply free_of_cons in Hv' as [Hc Hv']. simpl in Hd.
    unfold is_newline in Hd. rewrite Hc in Hd.
    destruct (dotstar k (v' +:+ t')) as [[v0 m0]|] eqn:E.
    + injection Hd as <- <-. apply (IH v0 m0 eq_refl v' t' eq_refl Hv').
      simpl in Hlen. lia.
    + by apply (dotstar_none_inv _ _ E v' t').
Qed.

(** X3.  A group is greedy: when a pattern that starts with a group
    matches a text, the text splits into what the group captured, which
    holds no newline, and a remainder on which the rest of the pattern
    matches with the remaining groups; and the capture is the longest such
    text: after any longer text without a newline the rest of the pattern
    fails. *)
Theorem group_takes_longest n p s m :
  re_match (Cap n :: p) s = Some m →
  ∃ v t m', m = (n, v) :: m'
            ∧ s = v +:+ t
            ∧ free_of newline v
            ∧ re_match p t = Some m'
            ∧ ∀ v' t', s = v' +:+ t' → free_of newline v' →
                       (String.length v < String.length v')%nat →
                       re_match p t' = None.
Proof.
  cbn [re_match]. destruct (dotstar (re_match p) s) as [[v m']|] eqn:E; [| done].
  intros [= <-]. destruct (dotstar_sound _ _ _ _ E) as (t & Hs & Hv & Hk).
  exists v, t, m'. split; [reflexivity |]. split; [exact Hs |].
  split; [exact Hv |]. split; [exact Hk |].
  by apply (dotstar_greedy _ _ _ _ E).
Qed.

Lemma group_takes_longest_witness :
  re_match (Cap "session" :: lits "/app/" ++ [Cap "app"]) "a/app/b/app/c"
  = Some [("session", "a/app/b"); ("app", "c")]
  ∧ ∃ v t m', [("session", "a/app/b"); ("app", "c")] = ("session", v) :: m'
              ∧ "a/app/b/app/c" = v +:+ t
              ∧ free_of newline v
              ∧ re_match (lits "/app/" ++ [Cap "app"]) t = Some m'
              ∧ ∀ v' t', "a/app/b/app/c" = v' +:+ t' → free_of newline v' →
                         (String.length v < String.length v')%nat →
                         re_match (lits "/app/" ++ [Cap "app"]) t' = None.
Proof.
  assert (Hm : re_match (Cap "session" :: lits "/app/" ++ [Cap "app"]) "a/app/b/app/c"
               = Some [("session", "a/app/b"); ("app", "c")]) by (by vm_compute).
  split; [exact Hm |].
  exact (group_takes_longest _ _ _ _ Hm).
Defined.

(** ** Templates of the fragment *)

Lemma scan_nodup s :
  ∀ st acc p,
    NoDup (cap_names acc) → pending_ok st acc →
    scan st acc s = Some p → NoDup (cap_names p).
Proof.
  induction s as [|c s IH]; intros st acc p Hacc Hpend Hscan.
  - destruct st; try discriminate Hscan. injection Hscan as <-.
    unfold cap_names. by rewrite <- Permutation_rev.
  - destruct st as [| | | |n|n|n|n]; cbn [scan] in Hscan; unfold expect in Hscan.
    + destruct (Ascii.eqb c "("); [by apply (IH SawParen acc) |].
      destruct (is_special c); [done |]. by apply (IH Top (Lit c :: acc)).
    + destruct (Ascii.eqb c "?"); [by apply (IH SawQuestion acc) | done].
    + destruct (Ascii.eqb c "P"); [by apply (IH SawP acc) | done].
    + destruct (Ascii.eqb c "<"); [by apply (IH (InName "") acc) | done].
    + destruct (Ascii.eqb c ">").
      * destruct (is_identifier n); [| done]. cbn in Hscan.
        case_bool_decide as Hfresh; [| done]. by apply (IH (SawName n) acc).
      * by apply (IH (InName (n +:+ String c "")) acc).
    + destruct (Ascii.eqb c "."); [by apply (IH (SawDot n) acc) | done].
    + destruct (Ascii.eqb c "*"); [by apply (IH (SawStar n) acc) | done].
    + destruct (Ascii.eqb c ")"); [| done].
      apply (IH Top (Cap n :: acc)); [| done | done].
      cbn. by apply NoDup_cons.
Qed.

Lemma compile_fragment_nodup src p :
  compile_fragment src = Some p → NoDup (cap_names p).
Proof. apply scan_nodup; [constructor | exact I]. Qed.

Lemma scan_plain s acc :
  plain s = true → scan Top acc s = Some (rev acc ++ lits s).
Proof.
  revert acc. induction s as [|c s IH]; intros acc Hs.
  - simpl. by rewrite app_nil_r.
  - cbn in Hs. apply andb_prop in Hs as [Hc Hs]. apply negb_true_iff in Hc.
    cbn [scan lits].
    destruct (Ascii.eqb c "(") eqn:E.
    { apply Ascii.eqb_eq in E as ->. discriminate Hc. }
    rewrite Hc, IH by done. cbn [rev]. by rewrite <- app_assoc.
Qed.

Lemma re_match_lits s t :
  re_match (lits s) t = if String.prefix s t then Some [] else None.
Proof.
  revert t. induction s as [|c s IH]; intros t.
  - by destruct t.
  - destruct t as [|c' t]; [reflexivity |]. cbn [lits re_match String.prefix].
    destruct (Ascii.ascii_dec c c') as [->|Hne].
    + rewrite Ascii.eqb_refl. apply IH.
    + apply Ascii.eqb_neq in Hne. by rewrite Hne.
Qed.

Section Templates.

Context {L : RegexLibrary}.

(** A text of the fragment compiles to its pattern, whatever [re] does
    with other texts. *)
Lemma re_compile_fragment src p :
  compile_fragment src = Some p → re_compile src = Some (Frag p).
Proof. intros Hc. unfold re_compile. by rewrite Hc. Qed.

(** X5.  Round trip for every template written with literal characters
    and named dot-star groups only, in which each group is last or
    followed by ['/']: [re.compile] gives the pattern read off the text,
    and values that hold neither ['/'] nor a newline, written into the
    groups, make a path that pattern matches, the match binding each group
    name to the value written into that group. *)
Theorem compiled_template_round_trip src p vs :
  compile_fragment src = Some p →
  slash_separated p = true →
  length vs = length (cap_names p) →
  Forall (free_of slash) vs →
  Forall (free_of newline) vs →
  re_compile src = Some (Frag p)
  ∧ regex_match (Frag p) (render p vs) = Some (zip (cap_names p) vs)
  ∧ ∀ i n v, cap_names p !! i = Some n → vs !! i = Some v →
             groupdict (zip (cap_names p) vs) !! n = Some v.
Proof.
  intros Hc Hp Hl Hs Hn. split; [by apply re_compile_fragment |].
  split; [by apply re_match_render |].
  intros i n v Hi Hv. unfold groupdict. apply elem_of_list_to_map.
  - rewrite fst_zip by lia. by eapply compile_fragment_nodup.
  - apply list_elem_of_lookup. exists i. apply lookup_zip_with_Some.
    by exists n, v.
Qed.

(** X6.  A pattern text without any special character compiles to its own
    characters, and as a pattern it is a prefix test: it matches exactly
    the paths that start with that text, and captures nothing. *)
Theorem plain_pattern_is_prefix_test s :
  plain s = true →
  re_compile s = Some (Frag (lits s))
  ∧ ∀ t, regex_match (Frag (lits s)) t = if String.prefix s t then Some [] else None.
Proof.
  intros Hs. split; [| apply re_match_lits].
  apply re_compile_fragment. unfold compile_fragment. by rewrite scan_plain.
Qed.

End Templates.

Lemma compiled_template_round_trip_witness :
  (compile_fragment sample_template = Some sample_regex
   ∧ slash_separated sample_regex = true
   ∧ length ["S1"] = length (cap_names sample_regex)
   ∧ Forall (free_of slash) ["S1"]
   ∧ Forall (free_of newline) ["S1"])
  ∧ re_compile (L := sample_library) sample_template = Some (Frag sample_regex)
  ∧ regex_match (L := sample_library) (Frag sample_regex) (render sample_regex ["S1"])
    = Some (zip (cap_names sample_regex) ["S1"])
  ∧ ∀ i n v, cap_names sample_regex !! i = Some n → ["S1"] !! i = Some v →
             groupdict (zip (cap_names sample_regex) ["S1"]) !! n = Some v.
Proof.
  assert (Hc : compile_fragment sample_template = Some sample_regex) by (by vm_compute).
  assert (Hs : Forall (free_of slash) ["S1"]) by (by repeat constructor).
  assert (Hn : Forall (free_of newline) ["S1"]) by (by repeat constructor).
  split; [by repeat split |].
  exact (compiled_template_round_trip (L := sample_library) sample_template sample_regex
           ["S1"] Hc eq_refl eq_refl Hs Hn).
Defined.

Lemma plain_pattern_is_prefix_test_witness :
  plain "/logs" = true
  ∧ re_compile (L := sample_library) "/logs" = Some (Frag (lits "/logs"))
  ∧ ∀ t, regex_match (L := sample_library) (Frag (lits "/logs")) t
         = if String.prefix "/logs" t then Some [] else None.
Proof.
  split; [reflexivity |].
  apply (plain_pattern_is_prefix_test (L := sample_library) "/logs"). reflexivity.
Defined.

(* ===================================================================== *)
(** * Part 6: further properties of registration and dispatch             *)
(* ===================================================================== *)

(** ** Registration *)

Section MoreRegistration.

Context {L : RegexLibrary}.

Lemma register_path_run path regex handlerFunction t st :
  watchThread st = Some t →
  re_compile path = Some regex →
  register_path path handlerFunction st
  = mkOutcome (Ok tt)
      (set_thread t (mkThread (fbURL (threads st t)) (daemon (threads st t))
                              (matchers (threads st t) ++ [(regex, handlerFunction)])) st)
      [].
Proof.
  intros Hw Hre. destruct st as [w ths n ss ps ds]. cbn in Hw. subst w.
  unfold register_path, mbind, M_mbind, bind, get, modify. cbn. by rewrite Hre.
Qed.

Lemma set_thread_same t th st : threads (set_thread t th st) t = th.
Proof. destruct st. cbn. by case_decide. Qed.

Lemma set_thread_other t t' th st : t' ≠ t → threads (set_thread t th st) t' = threads st t'.
Proof. destruct st. cbn. intros. by case_decide. Qed.

Lemma set_thread_watchThread t th st : watchThread (set_thread t th st) = watchThread st.
Proof. by destruct st. Qed.

Lemma compiled_cons path f rs :
  compiled ((path, f) :: rs)
  = match re_compile path with
    | Some regex => (regex, f) :: compiled rs
    | None => compiled rs
    end.
Proof. unfold compiled. simpl. by destruct (re_compile path). Qed.

(** X7.  Registration is append-only and composes: from a started
    watcher, a run of [register_path] calls whose patterns all compile
    succeeds, leaves the global bound to the same watcher, keeps every
    earlier registration in its place, appends the new ones in call order,
    and touches no other thread object. *)
Theorem register_each_appends rs t st :
  watchThread st = Some t →
  Forall (λ r : string * handler, is_Some (re_compile r.1)) rs →
  let o := register_each rs st in
  out o = Ok tt ∧ trace o = []
  ∧ watchThread (store o) = Some t
  ∧ matchers (threads (store o) t) = matchers (threads st t) ++ compiled rs
  ∧ ∀ t', t' ≠ t → threads (store o) t' = threads st t'.
Proof.
  intros Hw Hrs. revert st Hw.
  induction Hrs as [|[path f] rs [regex Hre] _ IH]; intros st Hw.
  - cbn. by rewrite app_nil_r.
  - cbn [register_each]. cbv zeta. rewrite bind_run. cbv zeta.
    cbn [fst] in Hre. rewrite (register_path_run _ regex _ t) by done.
    cbn [out store trace app].
    set (st1 := set_thread t _ st).
    assert (Hw1 : watchThread st1 = Some t).
    { unfold st1. by rewrite set_thread_watchThread. }
    destruct (IH st1 Hw1) as (Hout & Htrace & Hglobal & Hreg & Hother).
    split; [exact Hout |]. split; [exact Htrace |]. split; [exact Hglobal |].
    split.
    + rewrite Hreg. unfold st1. rewrite set_thread_same. cbn [matchers].
      rewrite compiled_cons, Hre. by rewrite <- app_assoc.
    + intros t' Hne. rewrite (Hother t' Hne). unfold st1.
      by apply set_thread_other.
Qed.

(** X8.  Calling [start] again does not carry registrations over: after
    [register_path] and a second [start], the global names a new watcher
    whose registry is the built-in registration alone, while the earlier
    thread object keeps its registry, the new registration included. *)
Theorem restart_drops_registrations path regex handlerFunction t st :
  watchThread st = Some t →
  (t < next_thread st)%nat →
  re_compile path = Some regex →
  let o := (register_path path handlerFunction ≫= λ _, start) st in
  out o = Ok tt
  ∧ ∃ t', watchThread (store o) = Some t' ∧ t' ≠ t
          ∧ matchers (threads (store o) t') = builtin_matchers
          ∧ matchers (threads (store o) t)
            = matchers (threads st t) ++ [(regex, handlerFunction)].
Proof.
  intros Hw Hlt Hre. cbv zeta. rewrite bind_run. cbv zeta.
  rewrite (register_path_run _ regex _ t) by done. cbn [out store trace app].
  destruct st as [w ths n ss ps ds]. cbn in Hw, Hlt. subst w.
  unfold start, mbind, M_mbind, bind, get, modify. cbn.
  split; [reflexivity |]. exists n. split; [reflexivity |].
  split; [lia |]. split.
  - by case_decide.
  - case_decide; [lia |]. by case_decide.
Qed.

Lemma matchAll_app r1 r2 path data :
  matchAll (r1 ++ r2) path data = matchAll r1 path data ++ matchAll r2 path data.
Proof. apply omap_app. Qed.

End MoreRegistration.

Lemma register_each_appends_witness :
  (watchThread sample_store = Some 0
   ∧ Forall (λ r : string * handler, is_Some (re_compile (L := sample_library) r.1))
       [(sample_template, UserHandler 0); (logs_template, UserHandler 1)])
  ∧ matchers (threads (store (register_each (H := sample_library)
                                [(sample_template, UserHandler 0);
                                 (logs_template, UserHandler 1)]
                                sample_store)) 0)
    = matchers (threads sample_store 0)
      ++ compiled (H := sample_library)
           [(sample_template, UserHandler 0); (logs_template, UserHandler 1)].
Proof.
  assert (Hrs : Forall (λ r : string * handler,
                          is_Some (re_compile (L := sample_library) r.1))
                  [(sample_template, UserHandler 0); (logs_template, UserHandler 1)]).
  { apply Forall_cons_2; [by eexists |]. apply Forall_cons_2; [by eexists |].
    apply Forall_nil_2. }
  split; [by split |].
  destruct (register_each_appends (L := sample_library) _ 0 sample_store eq_refl Hrs)
    as (_ & _ & _ & Hreg & _).
  exact Hreg.
Defined.

(** Both patterns, the one of the fragment and the one in other syntax,
    end up in the registry, in call order. *)
Example register_each_sample :
  matchers (threads (store (register_each (H := sample_library)
                              [(sample_template, UserHandler 0);
                               (logs_template, UserHandler 1)]
                              sample_store)) 0)
  = [(Frag _DECISION_RE, HandleDecision); (Frag sample_regex, UserHandler 0);
     (Lib logs_template, UserHandler 1)].
Proof. by vm_compute. Qed.

Lemma restart_drops_registrations_witness :
  (watchThread sample_store = Some 0
   ∧ (0 < next_thread sample_store)%nat
   ∧ re_compile (L := sample_library) sample_template = Some (Frag sample_regex))
  ∧ let o := (register_path (L := sample_library) sample_template (UserHandler 1)
              ≫= λ _, start) sample_store in
    out o = Ok tt
    ∧ ∃ t', watchThread (store o) = Some t' ∧ t' ≠ 0
            ∧ matchers (threads (store o) t') = builtin_matchers
            ∧ matchers (threads (store o) 0)
              = matchers (threads sample_store 0) ++ [(Frag sample_regex, UserHandler 1)].
Proof.
  assert (Hre : re_compile (L := sample_library) sample_template = Some (Frag sample_regex))
    by (by vm_compute).
  assert (Hlt : (0 < next_thread sample_store)%nat) by (cbn; lia).
  split; [by repeat split |].
  exact (restart_drops_registrations (L := sample_library) sample_template
           (Frag sample_regex) (UserHandler 1) 0 sample_store eq_refl Hlt Hre).
Defined.

Section MoreDispatch.

Context {L : RegexLibrary} {E : External}.

(** X9.  A registration made before an event arrives takes part in its
    dispatch, after every earlier registration: the loop body applies the
    handlers of the old registry's hits in turn and then, when the new
    pattern matches the path, the new handler, in the store the earlier
    ones left; what the new handler leaves is the store after the event. *)
Theorem registered_handler_called_last self path regex handlerFunction text payload p d st :
  watchThread st = Some self →
  re_compile path = Some regex →
  json_loads text = Some payload →
  subscript payload "path" = Ok (JStr p) →
  subscript payload "data" = Ok d →
  let st1 := store (register_path path handlerFunction st) in
  let old_hits := matchAll (matchers (threads st self)) p d in
  let hits := old_hits
              ++ match regex_match regex p with
                 | Some m => [(handlerFunction, m, d)]
                 | None => []
                 end in
  let o := handle_put self text st1 in
  o = then_run (mkOutcome (Ok tt) st1
                  (if decide (hits = [])
                   then [LogWarning (JStr p) (matchers (threads st1 self))] else []))
               (handlers_in_turn (JStr p) hits)
  ∧ calls (trace o) = hits
  ∧ ∀ m, regex_match regex p = Some m →
         store o
         = store (apply_handler handlerFunction m d
                    (store (handlers_in_turn (JStr p) old_hits st1))).
Proof.
  intros Hw Hre Hl Hp Hd st1 old_hits hits o.
  assert (Hreg : matchers (threads st1 self)
                 = matchers (threads st self) ++ [(regex, handlerFunction)]).
  { unfold st1. rewrite (register_path_run _ regex _ self) by done. cbn [store].
    by rewrite set_thread_same. }
  assert (Hhits : matchAll (matchers (threads st1 self)) p d = hits).
  { rewrite Hreg, matchAll_app, matchAll_cons. unfold hits, old_hits.
    by destruct (regex_match regex p). }
  pose proof (handle_put_in_turn self text payload p d st1 Hl Hp Hd) as Hturn.
  cbv zeta in Hturn. rewrite Hhits in Hturn. fold o in Hturn.
  split; [exact Hturn |]. split.
  - destruct (handle_put_outcome self text payload p d [] st1 Hl Hp Hd) as (_ & Hc & _).
    fold o in Hc. by rewrite Hc.
  - intros m Hm. rewrite Hturn, then_run_eq. cbn [store]. unfold hits.
    rewrite Hm, handlers_in_turn_app, then_run_eq. reflexivity.
Qed.

(** X10.  Messages of a kind other than [put] are skipped unread: [run]
    does on a stream exactly what it does on the stream's [put] messages,
    so the text of any other message, JSON or not, has no effect. *)
Theorem run_ignores_other_events self msgs st :
  run self msgs st = run self (filter (λ msg, event msg = "put") msgs) st.
Proof.
  assert (Hloop : ∀ st', run_loop self msgs st'
                         = run_loop self (filter (λ msg, event msg = "put") msgs) st').
  { induction msgs as [|msg msgs IH]; intros st'; [reflexivity |].
    rewrite filter_cons. case_decide as Hput.
    - rewrite !run_loop_cons. cbv zeta.
      destruct (out (handle_message self msg st')); [| reflexivity].
      rewrite !then_run_eq. by rewrite IH.
    - rewrite run_loop_cons. cbv zeta. unfold handle_message.
      destruct (decide (event msg = "put")) as [|_]; [done |].
      cbn. rewrite then_run_eq. cbn. rewrite <- IH.
      by destruct (run_loop self msgs st'). }
  unfold run. rewrite !bind_run. cbn. rewrite !bind_run. cbn.
  by rewrite Hloop.
Qed.

(** ** A decision event on the default registry, end to end *)

(** The loop body on a decision event when only the built-in registration
    is in place: one call of the decision handler, then what [decode] and
    [save] make of the captures. *)
Lemma default_event_run self text payload p d s a u r g c pc st :
  json_loads text = Some payload →
  subscript payload "path" = Ok (JStr p) →
  subscript payload "data" = Ok d →
  matchers (threads st self) = builtin_matchers →
  re_match _DECISION_RE p = Some (decision_match s a u r g c pc) →
  handle_put self text st
  = let call := Invoked HandleDecision (decision_match s a u r g c pc) d in
    match decode st s a u r g c pc d with
    | Ok None => mkOutcome (Ok tt) st [call]
    | Raise e => mkOutcome (Ok tt) st [call; LogException (JStr p) e]
    | Ok (Some rec) =>
        match save_error st rec with
        | None => mkOutcome (Ok tt) (add_decision rec st) [call; SaveCalled rec]
        | Some e => mkOutcome (Ok tt) st [call; SaveCalled rec; LogException (JStr p) e]
        end
    end.
Proof.
  intros Hl Hp Hd Hreg Hm.
  rewrite (handle_put_run self text payload p d st Hl Hp Hd). cbv zeta.
  rewrite Hreg. unfold builtin_matchers. rewrite matchAll_cons. cbn [regex_match].
  rewrite Hm.
  change (matchAll [] p d) with (@nil matched).
  case_decide; [done |].
  rewrite then_run_eq. cbn [out store trace].
  rewrite (invoke_all_cons _ (JStr p)) by done. cbv zeta.
  rewrite !then_run_eq. cbn [out store trace invoke_all].
  rewrite invoke_run. cbn [out store trace apply_handler].
  rewrite handle_decision_run.
  destruct (decode st s a u r g c pc d) as [[rec|]|e]; [| reflexivity | reflexivity].
  by destruct (save_error st rec).
Qed.

(** X11.  With only the built-in registration in place, a decision event
    whose session and participant are known, whose [round] and [group]
    parse and whose record the persistence layer accepts appends exactly
    that record to the stored decisions, with the fields read from the
    path and the event's data as its value, and logs nothing. *)
Theorem decision_event_stored self text payload p d s a u r g c pc sid rz gz pid st :
  json_loads text = Some payload →
  subscript payload "path" = Ok (JStr p) →
  subscript payload "data" = Ok d →
  matchers (threads st self) = builtin_matchers →
  re_match _DECISION_RE p = Some (decision_match s a u r g c pc) →
  session_table st !! s = Some sid →
  py_int r = Some rz → py_int g = Some gz →
  participant_table st !! pc = Some pid →
  let rec := mkDecision (Some c) (Some sid) (py_int u) (Some rz) (Some gz)
                        (Some pid) (Some a) (Some d) in
  save_error st rec = None →
  let o := handle_put self text st in
  out o = Ok tt
  ∧ decision_table (store o) = decision_table st ++ [rec]
  ∧ store o = add_decision rec st
  ∧ trace o = [Invoked HandleDecision (decision_match s a u r g c pc) d; SaveCalled rec].
Proof.
  intros Hl Hp Hd Hreg Hm Hs Hr Hg Hpc rec Hsave o. unfold o.
  rewrite (default_event_run self text payload p d s a u r g c pc st) by done.
  cbv zeta. unfold decode. rewrite Hs, Hr, Hg, Hpc. fold rec. rewrite Hsave.
  cbn [out store trace]. by destruct st.
Qed.

(** X12.  With only the built-in registration in place, a decision event
    for a session this deployment does not know is dropped in silence: the
    store is left as it was and no log record is written. *)
Theorem foreign_session_event_silent self text payload p d s a u r g c pc st :
  json_loads text = Some payload →
  subscript payload "path" = Ok (JStr p) →
  subscript payload "data" = Ok d →
  matchers (threads st self) = builtin_matchers →
  re_match _DECISION_RE p = Some (decision_match s a u r g c pc) →
  session_table st !! s = None →
  handle_put self text st
  = mkOutcome (Ok tt) st [Invoked HandleDecision (decision_match s a u r g c pc) d].
Proof.
  intros Hl Hp Hd Hreg Hm Hs.
  rewrite (default_event_run self text payload p d s a u r g c pc st) by done.
  cbv zeta. unfold decode. by rewrite Hs.
Qed.

(** X13.  With only the built-in registration in place, a decision event
    of a known session whose [round] or [group] does not parse, or whose
    participant is unknown, stores nothing: the loop body returns normally,
    the store is left as it was, and one exception record is logged with
    the event's path ([ValueError] for [round] or [group],
    [Participant.DoesNotExist] otherwise). *)
Theorem decode_failure_logged_and_dropped self text payload p d s a u r g c pc sid st :
  json_loads text = Some payload →
  subscript payload "path" = Ok (JStr p) →
  subscript payload "data" = Ok d →
  matchers (threads st self) = builtin_matchers →
  re_match _DECISION_RE p = Some (decision_match s a u r g c pc) →
  session_table st !! s = Some sid →
  py_int r = None ∨ py_int g = None ∨ participant_table st !! pc = None →
  handle_put self text st
  = mkOutcome (Ok tt) st
      [Invoked HandleDecision (decision_match s a u r g c pc) d;
       LogException (JStr p)
         (if decide (is_Some (py_int r) ∧ is_Some (py_int g))
          then ParticipantDoesNotExist else ValueError)].
Proof.
  intros Hl Hp Hd Hreg Hm Hs Hfail.
  rewrite (default_event_run self text payload p d s a u r g c pc st) by done.
  cbv zeta. unfold decode. rewrite Hs.
  destruct (py_int r) as [rz|]; [destruct (py_int g) as [gz|] |].
  - destruct Hfail as [? | [? | ->]]; [done | done |].
    case_decide as Hok; [reflexivity |]. destruct Hok. by split; eexists.
  - case_decide as Hok; [| reflexivity]. by destruct Hok as [_ [? ?]].
  - case_decide as Hok; [| reflexivity]. by destruct Hok as [[? ?] _].
Qed.

(** X14.  With only the built-in registration in place, a decision event
    that decodes but whose record the persistence layer refuses stores
    nothing: [save] is called once, the exception it raises is logged with
    the event's path, and the loop body returns normally. *)
Theorem save_failure_logged_and_dropped
    self text payload p d s a u r g c pc sid rz gz pid e st :
  json_loads text = Some payload →
  subscript payload "path" = Ok (JStr p) →
  subscript payload "data" = Ok d →
  matchers (threads st self) = builtin_matchers →
  re_match _DECISION_RE p = Some (decision_match s a u r g c pc) →
  session_table st !! s = Some sid →
  py_int r = Some rz → py_int g = Some gz →
  participant_table st !! pc = Some pid →
  let rec := mkDecision (Some c) (Some sid) (py_int u) (Some rz) (Some gz)
                        (Some pid) (Some a) (Some d) in
  save_error st rec = Some e →
  handle_put self text st
  = mkOutcome (Ok tt) st
      [Invoked HandleDecision (decision_match s a u r g c pc) d;
       SaveCalled rec; LogException (JStr p) e].
Proof.
  intros Hl Hp Hd Hreg Hm Hs Hr Hg Hpc rec Hsave.
  rewrite (default_event_run self text payload p d s a u r g c pc st) by done.
  cbv zeta. unfold decode. rewrite Hs, Hr, Hg, Hpc. fold rec. by rewrite Hsave.
Qed.

(** ** What the decision handler leaves alone *)

Lemma quiet_lift {A} (r : result A) : quiet (lift r).
Proof. intros st. by exists r. Qed.

Lemma quiet_mret {A} (a : A) : quiet (mret a).
Proof. intros st. by exists (Ok a). Qed.

Lemma quiet_raise {A} (e : exn) : quiet (raise (A := A) e).
Proof. intros st. by exists (Raise e). Qed.

Lemma quiet_bind {A B} (c : M A) (k : A → M B) :
  quiet c → (∀ a, quiet (k a)) → quiet (c ≫= k).
Proof.
  intros Hc Hk st. destruct (Hc st) as [r Hr].
  unfold mbind, M_mbind, bind. rewrite Hr.
  destruct r as [a|e]; [| by exists (Raise e)].
  destruct (Hk a st) as [r' ->]. by exists r'.
Qed.

Lemma quiet_attempt {A} (c : M A) : quiet c → quiet (attempt c).
Proof.
  intros Hc st. destruct (Hc st) as [r Hr]. unfold attempt. rewrite Hr.
  by exists (Ok r).
Qed.

Lemma quiet_Session_objects_get code : quiet (Session_objects_get code).
Proof.
  intros st. unfold Session_objects_get, mbind, M_mbind, bind, get. cbn.
  destruct (session_table st !! code); by eexists.
Qed.

Lemma quiet_Participant_objects_get code : quiet (Participant_objects_get code).
Proof.
  intros st. unfold Participant_objects_get, mbind, M_mbind, bind, get. cbn.
  destruct (participant_table st !! code); by eexists.
Qed.

Lemma saved_at_most_one_bind {A} (c : M A) (k : A → M unit) st :
  quiet c → (∀ a, saved_at_most_one st (k a st)) →
  saved_at_most_one st ((c ≫= k) st).
Proof.
  intros Hc Hk. destruct (Hc st) as [r Hr].
  unfold mbind, M_mbind, bind. rewrite Hr.
  destruct r as [a|e]; [| by left].
  destruct (Hk a) as [Hsame | (d & Hst & Hout & Htr)].
  - left. by destruct (k a st).
  - right. exists d. by destruct (k a st).
Qed.

Lemma saved_at_most_one_save d st : saved_at_most_one st (save d st).
Proof.
  unfold save, mbind, M_mbind, bind, emit, get, modify. cbn.
  destruct (save_error st d); [by left |]. right. by exists d.
Qed.

(** X15.  Whatever match object and data it is called with, the decision
    handler either leaves the whole store as it was, or returns normally
    having appended one decision, the one it handed to [save]: it never
    changes the global watcher, a thread object or the session and
    participant tables, and never removes or rewrites a stored decision. *)
Theorem handle_decision_frame m d st :
  saved_at_most_one st (_handleDecisionEvent m d st)
  ∧ watchThread (store (_handleDecisionEvent m d st)) = watchThread st
  ∧ threads (store (_handleDecisionEvent m d st)) = threads st
  ∧ session_table (store (_handleDecisionEvent m d st)) = session_table st
  ∧ participant_table (store (_handleDecisionEvent m d st)) = participant_table st
  ∧ ∃ new, decision_table (store (_handleDecisionEvent m d st))
           = decision_table st ++ new.
Proof.
  assert (Hframe : saved_at_most_one st (_handleDecisionEvent m d st)).
  { unfold _handleDecisionEvent. cbv zeta.
    set (gd := groupdict m). clearbody gd.
    apply saved_at_most_one_bind; [apply quiet_lift |]. intros component.
    apply saved_at_most_one_bind.
    { apply quiet_attempt, quiet_bind; [apply quiet_lift |].
      intros code. apply quiet_Session_objects_get. }
    intros [sid|e]; [| destruct e; by left].
    apply saved_at_most_one_bind; [apply quiet_attempt, quiet_lift |]. intros r.
    apply saved_at_most_one_bind.
    { destruct r as [z|e]; [apply quiet_mret |].
      destruct e; first [apply quiet_mret | apply quiet_raise]. }
    intros rec.
    apply saved_at_most_one_bind; [apply quiet_lift |]. intros round.
    apply saved_at_most_one_bind; [apply quiet_lift |]. intros group.
    apply saved_at_most_one_bind.
    { apply quiet_bind; [apply quiet_lift |].
      intros code. apply quiet_Participant_objects_get. }
    intros participant.
    apply saved_at_most_one_bind; [apply quiet_lift |]. intros app.
    apply saved_at_most_one_save. }
  split; [exact Hframe |].
  destruct Hframe as [-> | (rec & -> & _ & _)].
  - repeat split. exists []. by rewrite app_nil_r.
  - destruct st. cbn. repeat split. by eexists.
Qed.

(** ** Envelopes the loop body cannot read *)

(** X16.  A [put] message whose text does not decode, or whose payload has
    no readable [path], makes the loop body raise before anything is
    logged, called or stored, and [run]'s loop ends there: the messages
    after it are never examined. *)
Theorem envelope_error_stops_run self text rest e st :
  (json_loads text = None ∧ e = JSONDecodeError)
  ∨ (∃ payload, json_loads text = Some payload ∧ subscript payload "path" = Raise e) →
  handle_put self text st = mkOutcome (Raise e) st []
  ∧ run_loop self (mkMessage "put" text :: rest) st = mkOutcome (Raise e) st [].
Proof.
  intros Hbad.
  assert (Hput : handle_put self text st = mkOutcome (Raise e) st []).
  { unfold handle_put, mbind, M_mbind, bind.
    destruct Hbad as [[-> ->] | (payload & -> & Hp)]; [reflexivity |].
    cbn. destruct (matchers (threads st self)) as [|[regex f] registry].
    - cbn. by rewrite Hp.
    - cbn. by rewrite Hp. }
  split; [exact Hput |].
  rewrite run_loop_cons. cbv zeta. unfold handle_message. cbn [event data].
  destruct (decide ("put" = "put")) as [_|?]; [| done]. by rewrite Hput.
Qed.

Lemma collect_without_data registry payload p e acc :
  subscript payload "path" = Ok (JStr p) →
  subscript payload "data" = Raise e →
  collect registry payload acc
  = if decide (matchAll registry p JNull = []) then Ok acc else Raise e.
Proof.
  intros Hp Hd. induction registry as [|[regex f] registry IH].
  - reflexivity.
  - rewrite matchAll_cons. cbn [collect]. rewrite Hp, Hd.
    unfold mbind, result_mbind, result_bind. cbn.
    destruct (regex_match regex p) as [m|]; [| exact IH]. by case_decide.
Qed.

(** X17.  A [put] message whose payload has a [path] but no [data] is
    tolerated exactly when no registration matches the path: then the loop
    body logs the warning and returns; as soon as one registration matches,
    reading [data] raises out of the loop body with nothing called. *)
Theorem event_without_data self text payload p e st :
  json_loads text = Some payload →
  subscript payload "path" = Ok (JStr p) →
  subscript payload "data" = Raise e →
  let registry := matchers (threads st self) in
  handle_put self text st
  = if decide (matchAll registry p JNull = [])
    then mkOutcome (Ok tt) st [LogWarning (JStr p) registry]
    else mkOutcome (Raise e) st [].
Proof.
  intros Hl Hp Hd registry. unfold handle_put, mbind, M_mbind, bind.
  rewrite Hl. cbn -[invoke_all].
  rewrite (collect_without_data _ _ p e) by done. fold registry.
  case_decide; [| reflexivity]. cbn. by rewrite Hp.
Qed.

End MoreDispatch.

(** ** The further properties at the sample deployment *)

Section MoreSamples.

#[local] Existing Instance sample_library.

Lemma registered_handler_called_last_witness :
  (watchThread sample_store = Some 0
   ∧ re_compile sample_template = Some (Frag sample_regex)
   ∧ @json_loads sample_external sample_text = Some sample_payload
   ∧ regex_match (Frag sample_regex) sample_path = Some sample_session_match)
  ∧ let st1 := store (register_path sample_template (UserHandler 2) sample_store) in
    let o := handle_put (E := sample_external) 0 sample_text st1 in
    calls (trace o)
    = [(HandleDecision, sample_match, JInt 5);
       (UserHandler 2, sample_session_match, JInt 5)]
    ∧ store o
      = store (apply_handler (E := sample_external) (UserHandler 2)
                 sample_session_match (JInt 5)
                 (store (handlers_in_turn (H := sample_external) (JStr sample_path)
                           (matchAll (matchers (threads sample_store 0))
                                     sample_path (JInt 5))
                           st1))).
Proof.
  assert (Hre : re_compile sample_template = Some (Frag sample_regex)) by (by vm_compute).
  assert (Hl : @json_loads sample_external sample_text = Some sample_payload)
    by (by vm_compute).
  assert (Hm : regex_match (Frag sample_regex) sample_path = Some sample_session_match)
    by (by vm_compute).
  split; [by repeat split |].
  destruct (registered_handler_called_last (E := sample_external) 0 sample_template
              (Frag sample_regex) (UserHandler 2) sample_text sample_payload
              sample_path (JInt 5) sample_store eq_refl Hre Hl eq_refl eq_refl)
    as (_ & Hcalls & Hstore).
  split; [exact Hcalls | exact (Hstore _ Hm)].
Defined.

(** The handler registered last runs on the store the decision handler
    left, and what it registers itself is in the registry afterwards. *)
Example registered_handler_effects :
  let st1 := store (register_path sample_template (UserHandler 2) sample_store) in
  let o := handle_put (E := sample_external) 0 sample_text st1 in
  decision_table (store o)
  = [mkDecision (Some "chat") (Some 1) (Some 1%Z) (Some 2%Z) (Some 3%Z) (Some 7)
                (Some "econ") (Some (JInt 5))]
  ∧ matchers (threads (store o) 0)
    = [(Frag _DECISION_RE, HandleDecision); (Frag sample_regex, UserHandler 2);
       (Frag sample_regex, UserHandler 1)].
Proof. by vm_compute. Qed.

Lemma decision_event_stored_witness :
  (@json_loads sample_external sample_text = Some sample_payload
   ∧ matchers (threads sample_store 0) = builtin_matchers
   ∧ re_match _DECISION_RE sample_path
     = Some (decision_match "S1" "econ" "1" "2" "3" "chat" "P1")
   ∧ session_table sample_store !! "S1" = Some 1
   ∧ participant_table sample_store !! "P1" = Some 7)
  ∧ decision_table (store (handle_put (E := sample_external) 0 sample_text sample_store))
    = decision_table sample_store
      ++ [mkDecision (Some "chat") (Some 1) (@py_int sample_external "1") (Some 2%Z)
                     (Some 3%Z) (Some 7) (Some "econ") (Some (JInt 5))].
Proof.
  assert (Hl : @json_loads sample_external sample_text = Some sample_payload)
    by (by vm_compute).
  assert (Hm : re_match _DECISION_RE sample_path
               = Some (decision_match "S1" "econ" "1" "2" "3" "chat" "P1"))
    by (by vm_compute).
  assert (Hs : session_table sample_store !! "S1" = Some 1) by (by vm_compute).
  assert (Hp : participant_table sample_store !! "P1" = Some 7) by (by vm_compute).
  split; [by repeat split |].
  destruct (decision_event_stored (E := sample_external) 0 sample_text sample_payload
              sample_path (JInt 5) "S1" "econ" "1" "2" "3" "chat" "P1" 1 2%Z 3%Z 7
              sample_store Hl eq_refl eq_refl eq_refl Hm Hs eq_refl eq_refl Hp eq_refl)
    as (_ & Htable & _).
  exact Htable.
Defined.

Lemma foreign_session_event_silent_witness :
  (@json_loads sample_external sample_text = Some sample_payload
   ∧ matchers (threads bare_store 0) = builtin_matchers
   ∧ re_match _DECISION_RE sample_path
     = Some (decision_match "S1" "econ" "1" "2" "3" "chat" "P1")
   ∧ session_table bare_store !! "S1" = None)
  ∧ handle_put (E := sample_external) 0 sample_text bare_store
    = mkOutcome (Ok tt) bare_store
        [Invoked HandleDecision (decision_match "S1" "econ" "1" "2" "3" "chat" "P1")
                 (JInt 5)].
Proof.
  assert (Hl : @json_loads sample_external sample_text = Some sample_payload)
    by (by vm_compute).
  assert (Hm : re_match _DECISION_RE sample_path
               = Some (decision_match "S1" "econ" "1" "2" "3" "chat" "P1"))
    by (by vm_compute).
  assert (Hs : session_table bare_store !! "S1" = None) by (by vm_compute).
  split; [by repeat split |].
  exact (foreign_session_event_silent (E := sample_external) 0 sample_text
           sample_payload sample_path (JInt 5) "S1" "econ" "1" "2" "3" "chat" "P1"
           bare_store Hl eq_refl eq_refl eq_refl Hm Hs).
Defined.

Lemma decode_failure_logged_and_dropped_witness :
  (@json_loads sample_external_more text_bad_round = Some sample_payload_bad_round
   ∧ matchers (threads sample_store 0) = builtin_matchers
   ∧ re_match _DECISION_RE sample_path_bad_round
     = Some (decision_match "S1" "econ" "1" "abc" "3" "chat" "P1")
   ∧ session_table sample_store !! "S1" = Some 1
   ∧ @py_int sample_external_more "abc" = None)
  ∧ handle_put (E := sample_external_more) 0 text_bad_round sample_store
    = mkOutcome (Ok tt) sample_store
        [Invoked HandleDecision (decision_match "S1" "econ" "1" "abc" "3" "chat" "P1")
                 (JInt 5);
         LogException (JStr sample_path_bad_round)
           (if decide (is_Some (@py_int sample_external_more "abc")
                       ∧ is_Some (@py_int sample_external_more "3"))
            then ParticipantDoesNotExist else ValueError)].
Proof.
  assert (Hl : @json_loads sample_external_more text_bad_round
               = Some sample_payload_bad_round) by (by vm_compute).
  assert (Hm : re_match _DECISION_RE sample_path_bad_round
               = Some (decision_match "S1" "econ" "1" "abc" "3" "chat" "P1"))
    by (by vm_compute).
  assert (Hs : session_table sample_store !! "S1" = Some 1) by (by vm_compute).
  split; [by repeat split |].
  exact (decode_failure_logged_and_dropped (E := sample_external_more) 0 text_bad_round
           sample_payload_bad_round sample_path_bad_round (JInt 5)
           "S1" "econ" "1" "abc" "3" "chat" "P1" 1 sample_store
           Hl eq_refl eq_refl eq_refl Hm Hs (or_introl eq_refl)).
Defined.

Lemma save_failure_logged_and_dropped_witness :
  (@json_loads refusing_external sample_text = Some sample_payload
   ∧ matchers (threads sample_store 0) = builtin_matchers
   ∧ re_match _DECISION_RE sample_path
     = Some (decision_match "S1" "econ" "1" "2" "3" "chat" "P1")
   ∧ session_table sample_store !! "S1" = Some 1
   ∧ participant_table sample_store !! "P1" = Some 7)
  ∧ handle_put (E := refusing_external) 0 sample_text sample_store
    = mkOutcome (Ok tt) sample_store
        [Invoked HandleDecision (decision_match "S1" "econ" "1" "2" "3" "chat" "P1")
                 (JInt 5);
         SaveCalled (mkDecision (Some "chat") (Some 1) (@py_int refusing_external "1")
                                (Some 2%Z) (Some 3%Z) (Some 7) (Some "econ")
                                (Some (JInt 5)));
         LogException (JStr sample_path) (OtherError 1)].
Proof.
  assert (Hl : @json_loads refusing_external sample_text = Some sample_payload)
    by (by vm_compute).
  assert (Hm : re_match _DECISION_RE sample_path
               = Some (decision_match "S1" "econ" "1" "2" "3" "chat" "P1"))
    by (by vm_compute).
  assert (Hs : session_table sample_store !! "S1" = Some 1) by (by vm_compute).
  assert (Hp : participant_table sample_store !! "P1" = Some 7) by (by vm_compute).
  split; [by repeat split |].
  exact (save_failure_logged_and_dropped (E := refusing_external) 0 sample_text
           sample_payload sample_path (JInt 5) "S1" "econ" "1" "2" "3" "chat" "P1"
           1 2%Z 3%Z 7 (OtherError 1) sample_store
           Hl eq_refl eq_refl eq_refl Hm Hs eq_refl eq_refl Hp eq_refl).
Defined.

Lemma envelope_error_stops_run_witness :
  (@json_loads sample_external broken_text = None)
  ∧ handle_put (E := sample_external) 0 broken_text busy_store
    = mkOutcome (Raise JSONDecodeError) busy_store []
  ∧ run_loop (E := sample_external) 0
      [mkMessage "put" broken_text; mkMessage "put" sample_text] busy_store
    = mkOutcome (Raise JSONDecodeError) busy_store [].
Proof.
  assert (Hl : @json_loads sample_external broken_text = None) by (by vm_compute).
  split; [exact Hl |].
  exact (envelope_error_stops_run (E := sample_external) 0 broken_text
           [mkMessage "put" sample_text] JSONDecodeError busy_store
           (or_introl (conj Hl eq_refl))).
Defined.

Lemma event_without_data_witness :
  (@json_loads sample_external_more text_without_data = Some payload_without_data
   ∧ subscript payload_without_data "path" = Ok (JStr sample_path)
   ∧ subscript payload_without_data "data" = Raise (KeyError "data"))
  ∧ let registry := matchers (threads sample_store 0) in
    handle_put (E := sample_external_more) 0 text_without_data sample_store
    = if decide (matchAll registry sample_path JNull = [])
      then mkOutcome (Ok tt) sample_store [LogWarning (JStr sample_path) registry]
      else mkOutcome (Raise (KeyError "data")) sample_store [].
Proof.
  assert (Hl : @json_loads sample_external_more text_without_data
               = Some payload_without_data) by (by vm_compute).
  split; [by repeat split |].
  exact (event_without_data (E := sample_external_more) 0 text_without_data
           payload_without_data sample_path (KeyError "data") sample_store
           Hl eq_refl eq_refl).
Defined.

(** On the sample store the built-in registration matches the path, so the
    event without [data] raises. *)
Example missing_data_raises_on_sample :
  out (handle_put (E := sample_external_more) 0 text_without_data sample_store)
  = Raise (KeyError "data").
Proof. by vm_compute. Qed.

(** A [put] event with a [path] the built-in registration matches and no
    [data]: reading [data] raises inside the collecting loop, outside the
    [try], so no matched handler is invoked, nothing is logged, and the
    event after it is never dispatched. *)
Lemma missing_data_skips_matched_handlers :
  @json_loads sample_external_more text_without_data = Some payload_without_data
  ∧ subscript payload_without_data "path" = Ok (JStr sample_path)
  ∧ regex_match (Frag _DECISION_RE) sample_path = Some sample_match
  ∧ handle_put (E := sample_external_more) 0 text_without_data sample_store
    = mkOutcome (Raise (KeyError "data")) sample_store []
  ∧ run_loop (E := sample_external_more) 0
      [mkMessage "put" text_without_data; mkMessage "put" sample_text] sample_store
    = mkOutcome (Raise (KeyError "data")) sample_store []
  ∧ handle_put (E := sample_external_more) 0 sample_text sample_store
    = mkOutcome (Ok tt)
        (add_decision
           (mkDecision (Some "chat") (Some 1) (Some 1%Z) (Some 2%Z) (Some 3%Z) (Some 7)
                       (Some "econ") (Some (JInt 5)))
           sample_store)
        [Invoked HandleDecision sample_match (JInt 5);
         SaveCalled (mkDecision (Some "chat") (Some 1) (Some 1%Z) (Some 2%Z) (Some 3%Z)
                                (Some 7) (Some "econ") (Some (JInt 5)))].
Proof. by vm_compute. Qed.

(** A handler that raises first does not keep the decision handler after it
    from storing the decision: the error is logged with the path and the
    record is in the table afterwards. *)
Example decision_stored_after_raising_handler :
  handle_put (E := sample_external) 0 sample_text raising_first_store
  = mkOutcome (Ok tt)
      (add_decision
         (mkDecision (Some "chat") (Some 1) (Some 1%Z) (Some 2%Z) (Some 3%Z) (Some 7)
                     (Some "econ") (Some (JInt 5)))
         raising_first_store)
      [Invoked (UserHandler 0) sample_session_match (JInt 5);
       LogException (JStr sample_path) (OtherError 0);
       Invoked HandleDecision sample_match (JInt 5);
       SaveCalled (mkDecision (Some "chat") (Some 1) (Some 1%Z) (Some 2%Z) (Some 3%Z)
                              (Some 7) (Some "econ") (Some (JInt 5)))].
Proof. by vm_compute. Qed.

End MoreSamples.
